(** * tornpsql: the statement pipeline of [Connection]

    A shallow embedding of [tornpsql/__init__.py]: the Python string
    primitives the module relies on, the session-state prefixing of
    [_set_search_path], the keyword rewrite of [_execute], and the query
    surface ([query], [execute], [get], [executemany], [execute_rowcount],
    [mogrify], [file]) run against an arbitrary driver. *)

From Stdlib Require Import String Ascii List ZArith Lia Bool Arith.
From stdpp Require Import base option strings gmap.
Import ListNotations.
Local Open Scope string_scope.
Local Open Scope list_scope.

(** ** Python byte-string primitives *)

Module PyStr.

(** [re.I] on a Python 2 byte string folds the ASCII letters only. *)
Definition lower (c : ascii) : ascii :=
  let n := nat_of_ascii c in
  if (65 <=? n)%nat && (n <=? 90)%nat then ascii_of_nat (n + 32) else c.

(** [s.startswith(p)] *)
Fixpoint startswith (p s : string) : bool :=
  match p, s with
  | EmptyString, _ => true
  | String a p', String b s' => Ascii.eqb a b && startswith p' s'
  | String _ _, EmptyString => false
  end.

(** [re.search('^' + p, s, re.I)] for a literal pattern [p]: without
    [re.M] the anchor matches at the start of the string only. *)
Fixpoint startswith_ci (p s : string) : bool :=
  match p, s with
  | EmptyString, _ => true
  | String a p', String b s' => Ascii.eqb (lower a) (lower b) && startswith_ci p' s'
  | String _ _, EmptyString => false
  end.

(** [s[n:]] *)
Fixpoint drop (n : nat) (s : string) : string :=
  match n, s with
  | O, _ => s
  | S _, EmptyString => EmptyString
  | S k, String _ s' => drop k s'
  end.

(** [s.find(sub) > -1] *)
Fixpoint contains (sub s : string) : bool :=
  startswith sub s ||
  match s with
  | EmptyString => false
  | String _ s' => contains sub s'
  end.

(** [s.replace(old, new)] for a non-empty [old]: the occurrences of [old]
    are taken leftmost first and do not overlap.  [skip] counts the
    characters of a matched occurrence that are still to be passed over. *)
Fixpoint replace_go (old new : string) (skip : nat) (s : string) : string :=
  match s with
  | EmptyString => EmptyString
  | String c s' =>
      match skip with
      | S k => replace_go old new k s'
      | O =>
          if startswith old s
          then new +:+ replace_go old new (String.length old - 1) s'
          else String c (replace_go old new 0 s')
      end
  end.

Definition replace (old new s : string) : string := replace_go old new 0 s.

(** [s.split(sep)] for a non-empty [sep]: the segment being read and the
    segments after it. *)
Fixpoint split_go (sep : string) (skip : nat) (s : string) : string * list string :=
  match s with
  | EmptyString => (EmptyString, [])
  | String c s' =>
      match skip with
      | S k => split_go sep k s'
      | O =>
          if startswith sep s
          then (EmptyString,
                let '(seg, rest) := split_go sep (String.length sep - 1) s' in
                seg :: rest)
          else let '(seg, rest) := split_go sep 0 s' in (String c seg, rest)
      end
  end.

Definition split (sep s : string) : list string :=
  let '(seg, rest) := split_go sep 0 s in seg :: rest.

(** [sep.join(l)] *)
Definition join (sep : string) (l : list string) : string := String.concat sep l.

(** [re.sub(r"\n\s*", " ", s)]: a newline and the white space after it
    become one blank. *)
Definition is_space (c : ascii) : bool :=
  let n := nat_of_ascii c in
  (n =? 32)%nat || ((9 <=? n)%nat && (n <=? 13)%nat).

Fixpoint collapse_go (skipping : bool) (s : string) : string :=
  match s with
  | EmptyString => EmptyString
  | String c s' =>
      if skipping && is_space c then collapse_go true s'
      else if Ascii.eqb c "010"%char then String " "%char (collapse_go true s')
      else String c (collapse_go false s')
  end.

Definition collapse_newlines (s : string) : string := collapse_go false s.

End PyStr.

(** ** Values, exceptions and rows *)

(** The Python values bound to parameter markers and returned in result
    tuples. *)
#[warnings="-register-all"] Inductive value : Type :=
| VNone
| VInt (z : Z)
| VStr (s : string)
| VTuple (l : list value).

Inductive exn : Type :=
| OperationalError (msg : string)   (* psycopg2.OperationalError *)
| ProgrammingError (msg : string)   (* psycopg2.ProgrammingError *)
| DriverError (msg : string)        (* any other psycopg2.Error *)
| IOError (msg : string)
| TypeError (msg : string)
| ValueError (msg : string)
| PyException (msg : string)        (* Exception(msg) *)
| KeyboardInterrupt.                (* a BaseException that is not an Exception *)

Definition exn_str (e : exn) : string :=
  match e with
  | OperationalError m | ProgrammingError m | DriverError m
  | IOError m | TypeError m | ValueError m | PyException m => m
  | KeyboardInterrupt => ""
  end.

(** [isinstance(e, Exception)] *)
Definition is_Exception (e : exn) : bool :=
  match e with KeyboardInterrupt => false | _ => true end.

Definition is_OperationalError (e : exn) : bool :=
  match e with OperationalError _ => true | _ => false end.

Definition is_ProgrammingError (e : exn) : bool :=
  match e with ProgrammingError _ => true | _ => false end.

(** [class Row(dict)]: [Row(pairs)] builds the dict from the pairs in
    order, so a repeated column name keeps its last value. *)
Definition Row (pairs : list (string * value)) : gmap string value :=
  fold_left (fun m kv => <[kv.1 := kv.2]> m) pairs ∅.

(** ** The connection, its cursors and the driver *)

Record regtype : Type := {
  rt_oids : list Z;
  rt_name : string;
  rt_casting : nat   (* the identity of the callable *)
}.

Record Connection : Type := {
  host : string;
  database : option string;
  logging : bool;
  timezone : option string;
  _db : option nat;   (* the physical session, named by the length of the trace when it was opened *)
  _register_types : list regtype;
  _search_path : option string;
  _change_path : option string
}.

Record cursor_state : Type := {
  cur_closed : bool;
  cur_description : option (list string);   (* the column names of [cursor.description] *)
  cur_rows : list (list value);
  cur_rowcount : Z
}.

Definition fresh_cursor : cursor_state :=
  {| cur_closed := false; cur_description := None; cur_rows := []; cur_rowcount := (-1)%Z |}.

(** Every call that leaves the module, in the order it is made. *)
Inductive event : Type :=
| EConnect
| EDbClose
| ERegisterType (name : string)
| ERegisterHstore
| ECursor (c : nat)
| ECursorClose (c : nat)
| ECursorExecute (c : nat) (query : string) (parameters : option (list value))
| ECursorExecuteMany (c : nat) (query : string) (parameters : list value)
| ECursorMogrify (c : nat) (query : string) (parameters : list value)
| EOpenFile (path : string)
| ELogInfo (msg : string)
| ELogError (fmt : string) (args : list string).

Inductive outcome (A : Type) : Type :=
| Ret (a : A)
| Raise (e : exn).
Arguments Ret {A} a.
Arguments Raise {A} e.

Record exec_result : Type := {
  res_description : option (list string);
  res_rows : list (list value);
  res_rowcount : Z
}.

(** What psycopg2 and the file system answer; each answer may depend on
    everything the module has done so far. *)
Record driver : Type := {
  drv_connect : list event -> option exn;
  drv_register_hstore : list event -> option exn;
  drv_cursor : list event -> option exn;
  drv_mogrify : list event -> string -> list value -> outcome string;
  drv_execute : list event -> string -> option (list value) -> outcome exec_result;
  drv_executemany : list event -> string -> list value -> outcome Z;
  drv_read_script : list event -> string -> outcome string
}.

Record world : Type := {
  self : Connection;
  cursors : list cursor_state;
  trace : list event
}.

(** Python truthiness of a nullable string. *)
Definition truthy (o : option string) : bool :=
  match o with
  | Some s => negb (String.eqb s "")
  | None => false
  end.

(** ["fmt %s..." % x] for a string [x] *)
Definition opt_str (o : option string) : string :=
  match o with Some s => s | None => "None" end.

(** ** Session-state prefixing: [Connection._set_search_path] *)

Definition set_change_path (v : option string) (c : Connection) : Connection :=
  {| host := host c; database := database c; logging := logging c;
     timezone := timezone c; _db := _db c;
     _register_types := _register_types c;
     _search_path := _search_path c; _change_path := v |}.

Definition set_db (v : option nat) (c : Connection) : Connection :=
  {| host := host c; database := database c; logging := logging c;
     timezone := timezone c; _db := v;
     _register_types := _register_types c;
     _search_path := _search_path c; _change_path := _change_path c |}.

(** [Connection.path]: only the field changes; the method returns [self]. *)
Definition path (search_path : option string) (c : Connection) : Connection :=
  set_change_path search_path c.

(** [re.search(r'^set search_path', query, re.I)] *)
Definition has_search_path (query : string) : bool :=
  PyStr.startswith_ci "set search_path" query.

Definition search_path_stmt (p : option string) : string :=
  "set search_path = " +:+ opt_str p +:+ ";".

Definition timezone_stmt (tz : option string) : string :=
  "set timezone = '" +:+ opt_str tz +:+ "';".

(** The first [if]/[elif] of [_set_search_path]: the statement with its
    search-path directive, and the connection after it. *)
Definition apply_search_path (c : Connection) (query : string) : string * Connection :=
  if truthy (_change_path c) && negb (has_search_path query) then
    (search_path_stmt (_change_path c) +:+ query, set_change_path None c)
  else if truthy (_search_path c) && negb (has_search_path query) then
    (search_path_stmt (_search_path c) +:+ query, c)
  else (query, c).

Definition _set_search_path (c : Connection) (query : string) : string * Connection :=
  let '(query, c) := apply_search_path c query in
  let query := if truthy (timezone c) then timezone_stmt (timezone c) +:+ query else query in
  (query, c).

(** ** The keyword rewrite of [Connection._execute] *)

(** [kwargs] is the dict of keyword arguments, given as its items in the
    order in which [for key in kwargs] yields them. *)
Definition kwargs_t : Type := list (string * value).

(** [l.insert(i, v)] for [i >= 0]: past the end it appends. *)
Definition list_insert_at {A : Type} (i : nat) (v : A) (l : list A) : list A :=
  firstn i l ++ v :: skipn i l.

(** [enumerate(l)] *)
Fixpoint enumerate_from {A : Type} (n : nat) (l : list A) : list (nat * A) :=
  match l with
  | [] => []
  | x :: l' => (n, x) :: enumerate_from (S n) l'
  end.

Definition enumerate {A : Type} (l : list A) : list (nat * A) := enumerate_from 0 l.

(** [min(l)] of a non-empty list of naturals *)
Definition py_min (l : list nat) : nat :=
  match l with
  | [] => 0
  | x :: l' => fold_left Nat.min l' x
  end.

(** [min([x for x, part in enumerate(query.split("%s"))
          if part.find('__data__') > -1] or [0])] *)
Definition parampos (query : string) : nat :=
  let hits :=
    map fst (List.filter (fun xp => PyStr.contains "__data__" (snd xp))
                         (enumerate (PyStr.split "%s" query))) in
  py_min (match hits with [] => [0] | _ => hits end).

(** The body of [if kwargs:]. *)
Definition rewrite_kwargs (query : string) (parameters : list value) (kwargs : kwargs_t)
  : string * list value :=
  let keys := map fst kwargs in
  let values := map (fun _ => "%s") kwargs in
  let datas := map (fun kv => fst kv +:+ "=%s") kwargs in
  let args := map snd kwargs in
  let pos := parampos query in
  let args := rev args in
  let parameters := fold_left (fun ps v => list_insert_at pos v ps) args parameters in
  let query := PyStr.replace "__data__" (PyStr.join "," datas) query in
  let query := PyStr.replace "__keys__" (PyStr.join "," keys) query in
  let query := PyStr.replace "__values__" (PyStr.join "," values) query in
  (query, parameters).

Definition rewrite (query : string) (parameters : list value) (kwargs : kwargs_t)
  : string * list value :=
  match kwargs with
  | [] => (query, parameters)
  | _ :: _ => rewrite_kwargs query parameters kwargs
  end.

(** ** The dict of keyword arguments *)

(** The keyword arguments of a call reach [_execute] as a dict, and
    [for key in kwargs] walks the slots of its table, so the order that the
    rewrite sees is decided by the hashes of the keys.  [PyDict] follows
    CPython 2.7 on a platform whose C [long] has 64 bits, with hash
    randomization off (the default of Python 2): the hash of a byte string
    ([string_hash] of [Objects/stringobject.c], kept here as an unsigned
    word) and the table of [Objects/dictobject.c] (open addressing with
    perturbation, 8 slots at first, grown when two thirds are filled).
    Nothing is ever deleted from the dict of a call, so the filled slots
    are the used ones. *)
Module PyDict.

Definition word : Z := (2 ^ 64)%Z.

(** [x = (1000003*x) ^ *p++] *)
Definition hash_step (x : Z) (c : ascii) : Z :=
  Z.lxor ((1000003 * x) mod word)%Z (Z.of_N (N_of_ascii c)).

Definition string_hash (s : string) : Z :=
  match s with
  | EmptyString => 0%Z
  | String c _ =>
      let x := Z.shiftl (Z.of_N (N_of_ascii c)) 7 in
      let x := fold_left hash_step (list_ascii_of_string s) x in
      let x := Z.lxor x (Z.of_nat (String.length s)) in
      if Z.eqb x (word - 1)%Z then (word - 2)%Z else x   (* -1 is kept for errors *)
  end.

Definition slot : Type := option (string * value).

(** The loop of [lookdict_string]: [i = (i << 2) + i + perturb + 1] until
    the slot [i & mask] is empty or holds the key, [perturb >>= 5] after
    each step.  Once [perturb] is zero (after 13 steps) the sequence visits
    every slot, so [None], the end of the fuel, is a table without an empty
    slot, which the growth of the table excludes. *)
Fixpoint probe (fuel : nat) (table : list slot) (mask : Z) (key : string) (i perturb : Z)
  : option nat :=
  match fuel with
  | O => None
  | S fuel' =>
      let i := ((Z.shiftl i 2 + i + perturb + 1) mod word)%Z in
      let n := Z.to_nat (Z.land i mask) in
      match table !! n with
      | Some None => Some n
      | Some (Some (k, _)) =>
          if String.eqb k key then Some n
          else probe fuel' table mask key i (Z.shiftr perturb 5)
      | None => None
      end
  end.

(** [lookdict_string]: the slot of [key], starting at [hash & mask]. *)
Definition lookdict (table : list slot) (key : string) : option nat :=
  let mask := (Z.of_nat (length table) - 1)%Z in
  let h := string_hash key in
  let i := Z.land h mask in
  match table !! Z.to_nat i with
  | Some None => Some (Z.to_nat i)
  | Some (Some (k, _)) =>
      if String.eqb k key then Some (Z.to_nat i)
      else probe (length table + 13) table mask key i h
  | None => None
  end.

Record dict : Type := { table : list slot; fill : nat }.

Definition new_dict (size : nat) : dict := {| table := replicate size None; fill := 0 |}.

(** [insertdict] *)
Definition insertdict (d : dict) (key : string) (v : value) : option dict :=
  match lookdict (table d) key with
  | None => None
  | Some n =>
      let fresh := match table d !! n with Some None => true | _ => false end in
      Some {| table := <[n := Some (key, v)]> (table d);
              fill := if fresh then S (fill d) else fill d |}
  end.

(** The items in the order of iteration: slot by slot. *)
Definition items (d : dict) : list (string * value) := omap id (table d).

(** [for (newsize = 8; newsize <= minused; newsize <<= 1);] *)
Fixpoint new_size (fuel size minused : nat) : nat :=
  match fuel with
  | O => size
  | S fuel' => if Nat.leb size minused then new_size fuel' (2 * size) minused else size
  end.

(** [dictresize]: the items are inserted again, slot by slot, into an
    empty table of the new size. *)
Definition dictresize (d : dict) (minused : nat) : option dict :=
  fold_left (fun acc kv => acc ≫= fun d' => insertdict d' kv.1 kv.2)
            (items d) (Some (new_dict (new_size minused 8 minused))).

(** [PyDict_SetItem] *)
Definition setitem (d : dict) (key : string) (v : value) : option dict :=
  d' ← insertdict d key v;
  if Nat.ltb (fill d) (fill d') && Nat.leb (length (table d') * 2) (fill d' * 3)
  then dictresize d' ((if Z.ltb 50000 (Z.of_nat (fill d')) then 2 else 4) * fill d')
  else Some d'.

(** The dict that a call [f(..., k1=v1, k2=v2, ...)] hands to a function
    declared with [**kwargs], as its items in the order of iteration: the
    keyword arguments are stored one by one, in the order of the call, in
    an empty dict. *)
Definition kwargs (declared : list (string * value)) : option kwargs_t :=
  items <$> fold_left (fun acc kv => acc ≫= fun d => setitem d kv.1 kv.2)
                      declared (Some (new_dict 8)).

End PyDict.

(** ** Running the methods: state and exceptions *)

Definition M (A : Type) : Type := world -> outcome A * world.

Definition ret {A : Type} (a : A) : M A := fun w => (Ret a, w).

Definition raise {A : Type} (e : exn) : M A := fun w => (Raise e, w).

Definition bind {A B : Type} (m : M A) (k : A -> M B) : M B :=
  fun w =>
    match m w with
    | (Ret a, w') => k a w'
    | (Raise e, w') => (Raise e, w')
    end.

Notation "'let!' x ':=' m 'in' k" := (bind m (fun x => k))
  (at level 10, x name, m at level 100, k at level 200).
Notation "m ';;;' k" := (bind m (fun _ => k))
  (at level 100, k at level 200, right associativity).

(** [try: body / except <catches> as e: handler e] *)
Definition try_except {A : Type} (body : M A) (catches : exn -> bool) (handler : exn -> M A) : M A :=
  fun w =>
    match body w with
    | (Raise e, w') => if catches e then handler e w' else (Raise e, w')
    | r => r
    end.

(** [try: body / finally: final] *)
Definition try_finally {A : Type} (body : M A) (final : M unit) : M A :=
  fun w =>
    match body w with
    | (r, w') =>
        match final w' with
        | (Ret _, w'') => (r, w'')
        | (Raise e, w'') => (Raise e, w'')
        end
    end.

Definition get_self : M Connection := fun w => (Ret (self w), w).

Definition put_self (c : Connection) : M unit :=
  fun w => (Ret tt, {| self := c; cursors := cursors w; trace := trace w |}).

Definition get_trace : M (list event) := fun w => (Ret (trace w), w).

Definition emit (e : event) : M unit :=
  fun w => (Ret tt, {| self := self w; cursors := cursors w; trace := trace w ++ [e] |}).

Definition get_cursor (c : nat) : M cursor_state :=
  fun w => (Ret (default fresh_cursor (cursors w !! c)), w).

Definition put_cursor (c : nat) (st : cursor_state) : M unit :=
  fun w => (Ret tt, {| self := self w; cursors := <[c := st]> (cursors w); trace := trace w |}).

Definition new_cursor : M nat :=
  fun w => (Ret (length (cursors w)),
            {| self := self w; cursors := cursors w ++ [fresh_cursor]; trace := trace w |}).

(** A driver call that returns nothing: the event is recorded, then the
    driver's answer to the calls made before it decides the outcome. *)
Definition call_unit (e : event) (answer : list event -> option exn) : M unit :=
  let! tr := get_trace in
  emit e ;;;
  match answer tr with
  | None => ret tt
  | Some err => raise err
  end.

Definition call {A : Type} (e : event) (answer : list event -> outcome A) : M A :=
  let! tr := get_trace in
  emit e ;;;
  match answer tr with
  | Ret a => ret a
  | Raise err => raise err
  end.

Definition log_info (msg : string) : M unit := emit (ELogInfo msg).

Definition log_error (fmt : string) (args : list string) : M unit := emit (ELogError fmt args).

(** ** The methods of [Connection] *)

Section Methods.

Variable drv : driver.

(** [Connection.close] *)
Definition close : M unit :=
  let! c := get_self in
  match _db c with
  | Some _ => emit EDbClose ;;; put_self (set_db None c)
  | None => ret tt
  end.

(** [Connection.reconnect] *)
Definition reconnect : M unit :=
  close ;;;
  let! tr := get_trace in
  call_unit EConnect (drv_connect drv) ;;;
  let! c := get_self in
  put_self (set_db (Some (length tr)) c) ;;;
  emit (ERegisterType "MONEY") ;;;
  fold_right (fun t k => emit (ERegisterType (rt_name t)) ;;; k) (ret tt) (_register_types c) ;;;
  try_except (call_unit ERegisterHstore (drv_register_hstore drv))
             is_ProgrammingError (fun _ => ret tt).

(** [Connection._ensure_connected] *)
Definition _ensure_connected : M unit :=
  let! c := get_self in
  match _db c with
  | None => reconnect
  | Some _ => ret tt
  end.

(** [Connection._cursor] *)
Definition _cursor : M nat :=
  _ensure_connected ;;;
  let! tr := get_trace in
  match drv_cursor drv tr with
  | Some err => raise err
  | None => let! c := new_cursor in emit (ECursor c) ;;; ret c
  end.

(** [cursor.close()] *)
Definition cursor_close (c : nat) : M unit :=
  emit (ECursorClose c) ;;;
  let! st := get_cursor c in
  put_cursor c {| cur_closed := true; cur_description := cur_description st;
                  cur_rows := cur_rows st; cur_rowcount := cur_rowcount st |}.

(** [cursor.mogrify(query, parameters)] *)
Definition cursor_mogrify (c : nat) (query : string) (parameters : list value) : M string :=
  call (ECursorMogrify c query parameters) (fun tr => drv_mogrify drv tr query parameters).

(** [cursor.execute(query, parameters)] *)
Definition cursor_execute (c : nat) (query : string) (parameters : option (list value)) : M unit :=
  let! r := call (ECursorExecute c query parameters)
                 (fun tr => drv_execute drv tr query parameters) in
  let! st := get_cursor c in
  put_cursor c {| cur_closed := cur_closed st; cur_description := res_description r;
                  cur_rows := res_rows r; cur_rowcount := res_rowcount r |}.

(** [cursor.executemany(query, parameters)]: the result sets are discarded. *)
Definition cursor_executemany (c : nat) (query : string) (parameters : list value) : M unit :=
  let! n := call (ECursorExecuteMany c query parameters)
                 (fun tr => drv_executemany drv tr query parameters) in
  let! st := get_cursor c in
  put_cursor c {| cur_closed := cur_closed st; cur_description := None;
                  cur_rows := []; cur_rowcount := n |}.

(** [self._set_search_path(query)] on the connection of the world *)
Definition set_search_path_m (query : string) : M string :=
  let! c := get_self in
  let '(query, c) := _set_search_path c query in
  put_self c ;;; ret query.

(** The [except psycopg2.OperationalError] clause shared by [_execute]
    and [_executemany], with the format string of each. *)
Definition on_operational_error (fmt : string) (e : exn) : M unit :=
  let! c := get_self in
  log_error fmt [host c; exn_str e] ;;;
  close ;;;
  raise e.

(** [Connection._execute]: first its [try] block, then the method. *)
Definition _execute_try (cursor : nat) (query : string) (parameters : list value)
    (kwargs : kwargs_t) : M unit :=
  let! query := set_search_path_m query in
  let '(query, parameters) := rewrite query parameters kwargs in
  let! c := get_self in
  (if logging c then
     let! text := cursor_mogrify cursor query parameters in
     log_info (PyStr.collapse_newlines text)
   else ret tt) ;;;
  cursor_execute cursor query (Some parameters).

Definition _execute (cursor : nat) (query : string) (parameters : list value)
    (kwargs : kwargs_t) : M unit :=
  try_except
    (_execute_try cursor query parameters kwargs)
    is_OperationalError
    (on_operational_error "Error connecting to PostgreSQL on %s, %s").

(** [Connection._executemany]: first its [try] block, then the method. *)
Definition _executemany_try (cursor : nat) (query : string) (parameters : list value) : M unit :=
  let! query := set_search_path_m query in
  let! c := get_self in
  (if logging c then
     let! text := cursor_mogrify cursor query parameters in
     log_info (PyStr.collapse_newlines text)
   else ret tt) ;;;
  cursor_executemany cursor query parameters.

Definition _executemany (cursor : nat) (query : string) (parameters : list value) : M unit :=
  try_except
    (_executemany_try cursor query parameters)
    is_OperationalError
    (on_operational_error "Error connecting to PostgreSQL on %s, e").

(** [Connection.query]: [None] stands for the implicit [return None]. *)
Definition query (q : string) (parameters : list value) (kwargs : kwargs_t)
  : M (option (list (gmap string value))) :=
  let! cursor := _cursor in
  try_except
    (_execute cursor q parameters kwargs ;;;
     let! st := get_cursor cursor in
     match cur_description st with
     | Some (name :: names) =>
         let column_names := name :: names in
         ret (Some (map (fun row => Row (zip column_names row)) (cur_rows st)))
     | _ => ret None
     end)
    (fun _ => true)
    (fun e => cursor_close cursor ;;; raise e).

(** [Connection.execute]: its signature is [(self, query, *parameters)], so
    a call with keyword arguments is refused before the body runs. *)
Definition execute (q : string) (parameters : list value) (kwargs : kwargs_t)
  : M (option (list (gmap string value))) :=
  match kwargs with
  | [] => query q parameters []
  | (k, _) :: _ =>
      raise (TypeError ("execute() got an unexpected keyword argument '" +:+ k +:+ "'"))
  end.

(** [Connection.get] *)
Definition get (q : string) (parameters : list value) (kwargs : kwargs_t)
  : M (option (gmap string value)) :=
  let! rows := query q parameters kwargs in
  match rows with
  | None | Some [] => ret None
  | Some (_ :: _ :: _) => raise (PyException "Multiple rows returned for Database.get() query")
  | Some [row] => ret (Some row)
  end.

(** [Connection.executemany] *)
Definition executemany (q : string) (parameters : list value) : M bool :=
  let! cursor := _cursor in
  try_except
    (_executemany cursor q parameters ;;; ret true)
    is_Exception
    (fun e => cursor_close cursor ;;; raise e).

(** [Connection.execute_rowcount] *)
Definition execute_rowcount (q : string) (parameters : list value) (kwargs : kwargs_t) : M Z :=
  let! cursor := _cursor in
  try_finally
    (_execute cursor q parameters kwargs ;;;
     let! st := get_cursor cursor in
     ret (cur_rowcount st))
    (cursor_close cursor).

(** [Connection.mogrify] *)
Definition mogrify (q : string) (parameters : list value) : M string :=
  let! cursor := _cursor in
  try_except
    (cursor_mogrify cursor q parameters)
    (fun _ => true)
    (fun e => cursor_close cursor ;;; raise e).

(** [Connection.file] with [_execute=True].  Reading the script and
    inlining its [\ir] directives is the file system's part: the driver
    answers with the combined text.  [file_execute] is the [if _execute:]
    block, run on that text. *)
Definition file_execute (sql : string) : M unit :=
  let! cursor := _cursor in
  let! c := get_self in
  let! sql :=
    (if truthy (_change_path c) then
       put_self (set_change_path None c) ;;;
       ret (search_path_stmt (_change_path c) +:+ sql)
     else if truthy (_search_path c) then
       ret (search_path_stmt (_search_path c) +:+ sql)
     else ret sql) in
  cursor_execute cursor sql None.

Definition file (path : string) : M unit :=
  let! sql := call (EOpenFile path) (fun tr => drv_read_script drv tr path) in
  file_execute sql.

End Methods.

(** ** What the statements of the properties are written with *)

(** The schema that a build uses: the one-shot override when it is set to
    a non-empty name, the persistent default otherwise. *)
Definition effective_schema (c : Connection) : option string :=
  if truthy (_change_path c) then _change_path c else _search_path c.

Definition timezone_prefix (c : Connection) : string :=
  if truthy (timezone c) then timezone_stmt (timezone c) else "".

Definition default_prefix (c : Connection) : string :=
  if truthy (_search_path c) then search_path_stmt (_search_path c) else "".

(** The search-path directive that [_set_search_path] puts in front of a
    template, and the one [file] puts in front of a script. *)
Definition schema_prefix (c : Connection) (query : string) : string :=
  if has_search_path query then ""
  else if truthy (_change_path c) then search_path_stmt (_change_path c)
  else default_prefix c.

Definition file_prefix (c : Connection) : string :=
  if truthy (_change_path c) then search_path_stmt (_change_path c)
  else default_prefix c.

(** The statement that [_execute] sends for a template: the session
    prefix in front, then the keyword rewrite. *)
Definition built_statement (c : Connection) (query : string) (parameters : list value)
    (kwargs : kwargs_t) : string :=
  fst (rewrite (timezone_prefix c +:+ schema_prefix c query +:+ query) parameters kwargs).

(** The index of the first element that satisfies [f]. *)
Fixpoint find_index {A : Type} (f : A -> bool) (l : list A) : option nat :=
  match l with
  | [] => None
  | x :: l' => if f x then Some 0 else option_map S (find_index f l')
  end.

(** The insertion position in the words of the design: the index of the
    earliest segment between parameter markers that holds [__data__], and
    0 when there is none. *)
Definition earliest_data_segment (query : string) : nat :=
  match find_index (PyStr.contains "__data__") (PyStr.split "%s" query) with
  | Some i => i
  | None => 0
  end.

(** The statement text of the round trips recorded in a trace: the
    [execute] and [executemany] calls. *)
Definition statement_of (e : event) : option string :=
  match e with
  | ECursorExecute _ q _ | ECursorExecuteMany _ q _ => Some q
  | _ => None
  end.

Fixpoint statements (tr : list event) : list string :=
  match tr with
  | [] => []
  | e :: tr' =>
      match statement_of e with
      | Some q => q :: statements tr'
      | None => statements tr'
      end
  end.

(** A call that returns has sent [stmt] in one round trip and nothing
    else; a call that raises has sent that one statement or nothing. *)
Definition one_statement {A : Type} (stmt : string) (m : M A) (w : world) : Prop :=
  match fst (m w) with
  | Ret _ => statements (trace (snd (m w))) = statements (trace w) ++ [stmt]
  | Raise _ =>
      statements (trace (snd (m w))) = statements (trace w)
      \/ statements (trace (snd (m w))) = statements (trace w) ++ [stmt]
  end.

(** ** Relations between the world before and after a call *)

(** [m] keeps the world within [R] of where it started. *)
Definition respects {A : Type} (R : world -> world -> Prop) (m : M A) : Prop :=
  forall w, R w (snd (m w)).

(** The trace is only ever extended. *)
Definition grows (w w' : world) : Prop := exists l, trace w' = trace w ++ l.

(** The session settings that statement building reads. *)
Definition session (c : Connection) : string * bool * option string * option string * option string :=
  (host c, logging c, timezone c, _search_path c, _change_path c).

(** No statement is sent, no session setting changes, and no cursor is
    touched. *)
Definition quiet (w w' : world) : Prop :=
  statements (trace w') = statements (trace w)
  /\ session (self w') = session (self w)
  /\ cursors w' = cursors w.

(** As [quiet], except that cursors may be opened and closed. *)
Definition silent (w w' : world) : Prop :=
  statements (trace w') = statements (trace w)
  /\ session (self w') = session (self w).

Definition starts_with {A : Type} (e : event) (m : M A) (w : world) : Prop :=
  exists l, trace (snd (m w)) = trace w ++ e :: l.

(** The connection record is left as it was. *)
Definition keeps_self (w w' : world) : Prop := self w' = self w.

(** ** Occurrences of a token in a string *)

(** [t] occurs in [s] *)
Definition occurs (t s : string) : Prop := exists a b, s = a +:+ t +:+ b.

(** [t] occurs in [s] at an index below [n] *)
Definition occurs_before (n : nat) (t s : string) : Prop :=
  exists a b, s = a +:+ t +:+ b /\ String.length a < n.

(** A replacement text [r] that cannot form the token [t] with the text
    around it: [t] is not in [r], no end of [r] is the other end of [t],
    and [r] is not an inner part of [t]. *)
Record inert (t r : string) : Prop := {
  inert_inside : ~ occurs t r;
  inert_right : forall x y z, r = z +:+ x -> t = x +:+ y -> x <> "" -> y <> "" -> False;
  inert_left : forall x y z, r = x +:+ z -> t = y +:+ x -> x <> "" -> y <> "" -> False;
  inert_cover : forall a b, t = a +:+ r +:+ b -> a <> "" -> b <> "" -> False
}.

(** [c in s] for a character *)
Fixpoint has_char (c : ascii) (s : string) : bool :=
  match s with
  | EmptyString => false
  | String a s' => Ascii.eqb a c || has_char c s'
  end.

(** All the ways of cutting a string in two. *)
Fixpoint splits (s : string) : list (string * string) :=
  (EmptyString, s) ::
  match s with
  | EmptyString => []
  | String c s' => map (fun ab => (String c (fst ab), snd ab)) (splits s')
  end.

(** Every text [r] strictly inside [t] (with something of [t] on both
    sides) satisfies [p]. *)
Definition inner_parts_satisfy (p : string -> bool) (t : string) : bool :=
  forallb (fun a_rb =>
    forallb (fun r_b =>
      String.eqb (fst a_rb) "" || String.eqb (snd r_b) "" || p (fst r_b))
      (splits (snd a_rb)))
    (splits t).


(** [s.endswith(c)] for a character *)
Fixpoint last_is (c : ascii) (s : string) : bool :=
  match s with
  | EmptyString => false
  | String a s' =>
      match s' with
      | EmptyString => Ascii.eqb a c
      | String _ _ => last_is c s'
      end
  end.

(** A text with no underscore at either end and no two underscores in a
    row. *)
Definition clean (s : string) : bool :=
  negb (PyStr.startswith "_" s) && negb (last_is "_" s) && negb (PyStr.contains "__" s).

(** Every proper end of [t] is a single underscore or holds two in a row. *)
Definition ends_marked (t : string) : bool :=
  forallb (fun yx =>
    String.eqb (fst yx) "" || String.eqb (snd yx) ""
    || String.eqb (snd yx) "_" || PyStr.contains "__" (snd yx))
    (splits t).

(** Keys for which the rewrite leaves no [__keys__] or [__data__] behind:
    no key begins or ends with an underscore or has two in a row, and the
    comma-joined keys are not a part (possibly empty) of the words [keys]
    or [data]. *)
Definition keys_safe (keys : list string) : bool :=
  forallb clean keys
  && negb (PyStr.contains (PyStr.join "," keys) "keys")
  && negb (PyStr.contains (PyStr.join "," keys) "data").

(** ** Fixtures *)

Definition conn (tz default_path one_shot : option string) (db : option nat) : Connection :=
  {| host := "127.0.0.1"; database := Some "test"; logging := false;
     timezone := tz; _db := db; _register_types := [];
     _search_path := default_path; _change_path := one_shot |}.

Definition world_of (c : Connection) : world :=
  {| self := c; cursors := []; trace := [] |}.

(** A connected session built with the defaults of the constructor
    (timezone "+00", no default schema). *)
Definition connected_world : world :=
  world_of (conn (Some "+00") None None (Some 0)).

Definition closed_flags (w : world) : list bool := map cur_closed (cursors w).

Definition one_row : exec_result :=
  {| res_description := Some ["id"]; res_rows := [[VInt 1]]; res_rowcount := 1 |}.

Definition no_result_set : exec_result :=
  {| res_description := None; res_rows := []; res_rowcount := 1 |}.

(** A result set with columns but an empty column list, as a [SELECT]
    without a select list has it. *)
Definition no_columns : exec_result :=
  {| res_description := Some []; res_rows := [[]]; res_rowcount := 1 |}.

Definition table (rows : list (list value)) : exec_result :=
  {| res_description := Some ["id"; "name"]; res_rows := rows;
     res_rowcount := Z.of_nat (length rows) |}.

(** A driver whose every call succeeds; [execute] answers [r]. *)
Definition driver_ok (r : exec_result) : driver :=
  {| drv_connect := fun _ => None;
     drv_register_hstore := fun _ => None;
     drv_cursor := fun _ => None;
     drv_mogrify := fun _ q _ => Ret q;
     drv_execute := fun _ _ _ => Ret r;
     drv_executemany := fun _ _ _ => Ret 1%Z;
     drv_read_script := fun _ _ => Ret "select 1" |}.

Definition is_execute_event (e : event) : bool :=
  match e with ECursorExecute _ _ _ => true | _ => false end.

(** A driver whose first [execute] loses the connection and whose later
    calls succeed. *)
Definition driver_fails_once (r : exec_result) : driver :=
  {| drv_connect := fun _ => None;
     drv_register_hstore := fun _ => None;
     drv_cursor := fun _ => None;
     drv_mogrify := fun _ q _ => Ret q;
     drv_execute := fun tr _ _ =>
       if existsb is_execute_event tr then Ret r
       else Raise (OperationalError "server closed the connection unexpectedly");
     drv_executemany := fun _ _ _ => Ret 1%Z;
     drv_read_script := fun _ _ => Ret "select 1" |}.

Definition is_connect_event (e : event) : bool :=
  match e with EConnect => true | _ => false end.

(** A server that has dropped the session the world starts with and
    accepts new ones: a statement fails with an operational error until
    the module has connected again. *)
Definition driver_session_lost (r : exec_result) : driver :=
  {| drv_connect := fun _ => None;
     drv_register_hstore := fun _ => None;
     drv_cursor := fun _ => None;
     drv_mogrify := fun _ q _ => Ret q;
     drv_execute := fun tr _ _ =>
       if existsb is_connect_event tr then Ret r
       else Raise (OperationalError "server closed the connection unexpectedly");
     drv_executemany := fun tr _ _ =>
       if existsb is_connect_event tr then Ret 1%Z
       else Raise (OperationalError "server closed the connection unexpectedly");
     drv_read_script := fun _ _ => Ret "select 1" |}.

(** * The rest of the module *)

(** ** [Connection.register_type], [Connection.__init__] *)

Definition set_register_types (v : list regtype) (c : Connection) : Connection :=
  {| host := host c; database := database c; logging := logging c;
     timezone := timezone c; _db := _db c;
     _register_types := v;
     _search_path := _search_path c; _change_path := _change_path c |}.

(** [Connection.register_type].  Its three [assert]s check the Python
    types of the arguments, which a [regtype] has by construction. *)
Definition register_type (t : regtype) : M unit :=
  let! c := get_self in
  put_self (set_register_types (_register_types c ++ [t]) c) ;;;
  match _db c with
  | Some _ => emit (ERegisterType (rt_name t))
  | None => ret tt
  end.

(** The answer of a built-in, as a step of a method. *)
Definition of_outcome {A : Type} (o : outcome A) : M A := fun w => (o, w).

(** The first three assignments of [__init__]: [self.logging],
    [self.host], [self.database]. *)
Definition set_host_database (h : string) (d : option string) (c : Connection) : Connection :=
  {| host := h; database := d; logging := false;
     timezone := timezone c; _db := _db c;
     _register_types := _register_types c;
     _search_path := _search_path c; _change_path := _change_path c |}.

(** [Connection.__init__] for a [host_or_url] that does not start with
    [postgres://] (the [else] branch), statement by statement: [logging],
    [host] and [database] are assigned, then [int(port)] is evaluated for
    the driver's arguments, ahead of the [try] block, then the other fields
    are assigned and one [reconnect] is tried.  [py_int] is what the
    built-in [int] answers: the number, or the [ValueError] or [TypeError]
    that it raises.  [user] is [args['user']], which only the log message
    reads; the password and the converted port go to the driver only.  The
    fields that are not assigned yet are those of the world the
    constructor starts in. *)
Definition __init__ (drv : driver) (py_int : value -> outcome Z) (host_or_url : string)
    (database user : option string) (port : value)
    (search_path timezone : option string) : M unit :=
  let! c := get_self in
  put_self (set_host_database host_or_url database c) ;;;
  let! _port := of_outcome (py_int port) in
  put_self {| host := host_or_url; database := database; logging := false;
              timezone := timezone; _db := None; _register_types := [];
              _search_path := search_path; _change_path := None |} ;;;
  try_except (reconnect drv) is_Exception
    (fun _ =>
       log_error "Cannot connect to PostgreSQL on postgresql://%s:<password>@%s/%s"
                 [opt_str user; host_or_url; opt_str database]).

(** ** [Connection._cast_money] *)

(** The text that [_cast_money] hands to [Decimal]; [None] stays [None]. *)
Definition _cast_money (s : option string) : option string :=
  match s with
  | None => None
  | Some s => Some (PyStr.replace "$" "" (PyStr.replace "," "" s))
  end.

(** ** [Connection.notices] *)

(** [s.lstrip()], [s.rstrip()] and [s.strip()] on a byte string *)
Fixpoint lstrip (s : string) : string :=
  match s with
  | EmptyString => EmptyString
  | String c s' => if PyStr.is_space c then lstrip s' else s
  end.

Fixpoint rstrip (s : string) : string :=
  match s with
  | EmptyString => EmptyString
  | String c s' =>
      match rstrip s' with
      | EmptyString => if PyStr.is_space c then EmptyString else String c EmptyString
      | String _ _ as r => String c r
      end
  end.

Definition strip (s : string) : string := rstrip (lstrip s).

(** [l.pop()]: the last item and the list without it; [None] stands for
    the [IndexError] on an empty list. *)
Definition list_pop {A : Type} (l : list A) : option (A * list A) :=
  match rev l with
  | [] => None
  | x :: r => Some (x, rev r)
  end.

(** [[self._db.notices.pop()[8:].strip() for x in range(n)]] on the
    pending list: the result and what is left pending. *)
Fixpoint pop_notices (n : nat) (pending : list string) : option (list string * list string) :=
  match n with
  | O => Some ([], pending)
  | S n' =>
      match list_pop pending with
      | None => None
      | Some (x, rest) =>
          match pop_notices n' rest with
          | None => None
          | Some (out, pending') => Some (strip (PyStr.drop 8 x) :: out, pending')
          end
      end
  end.

(** The [notices] property, given the pending notices of the session. *)
Definition notices (c : Connection) (pending : list string)
  : option (list string * list string) :=
  match _db c with
  | Some _ => pop_notices (length pending) pending
  | None => Some ([], pending)
  end.

(** ** [Row.__getattr__] *)

Inductive attr_outcome : Type :=
| AttrOwn (name : string)        (* what the normal lookup finds, a method of [dict] say *)
| AttrValue (v : value)
| AttributeError (name : string).

(** [Row.__getattr__], the method itself. *)
Definition Row_getattr (r : gmap string value) (name : string) : attr_outcome :=
  match r !! name with
  | Some v => AttrValue v
  | None => AttributeError name
  end.

(** The attribute access [row.name]: Python looks the name up on the
    object and its classes first and calls [__getattr__] only when that
    lookup fails.  [own] tells the names that the normal lookup finds: the
    attributes of [dict] and of [object], and those set on the row. *)
Definition Row_attribute (own : string -> bool) (r : gmap string value) (name : string)
  : attr_outcome :=
  if own name then AttrOwn name else Row_getattr r name.

(** The public methods of [dict] in Python 2.7: names that the normal
    lookup finds on every row. *)
Definition dict_methods : list string :=
  ["clear"; "copy"; "fromkeys"; "get"; "has_key"; "items"; "iteritems"; "iterkeys";
   "itervalues"; "keys"; "pop"; "popitem"; "setdefault"; "update"; "values";
   "viewitems"; "viewkeys"; "viewvalues"].

Definition is_dict_method (name : string) : bool := existsb (String.eqb name) dict_methods.

(** ** What the further properties are written with *)

(** ASCII lower case of a whole string *)
Fixpoint lower_string (s : string) : string :=
  match s with
  | EmptyString => EmptyString
  | String c s' => String (PyStr.lower c) (lower_string s')
  end.


(** The number of cursors stays the same. *)
Definition keeps_count (w w' : world) : Prop := length (cursors w') = length (cursors w).

(** The session handle stays the same. *)
Definition keeps_db (w w' : world) : Prop := _db (self w') = _db (self w).

Definition registrations (l : list regtype) : list event :=
  map (fun t => ERegisterType (rt_name t)) l.

(** The world after [close]. *)
Definition closed (w : world) : world :=
  match _db (self w) with
  | Some _ => {| self := set_db None (self w); cursors := cursors w;
                 trace := trace w ++ [EDbClose] |}
  | None => w
  end.

(** The built-in [int] answering [r] for the port of an example. *)
Definition int_answers (r : outcome Z) : value -> outcome Z := fun _ => r.

(** A driver that refuses every connection. *)
Definition driver_down : driver :=
  {| drv_connect := fun _ => Some (OperationalError "connection refused");
     drv_register_hstore := fun _ => None;
     drv_cursor := fun _ => None;
     drv_mogrify := fun _ q _ => Ret q;
     drv_execute := fun _ _ _ => Ret no_result_set;
     drv_executemany := fun _ _ _ => Ret 1%Z;
     drv_read_script := fun _ _ => Ret "select 1" |}.

(** A driver whose server has no hstore extension, or (with [err]) fails
    otherwise while enabling it. *)
Definition driver_hstore_error (err : exn) : driver :=
  {| drv_connect := fun _ => None;
     drv_register_hstore := fun _ => Some err;
     drv_cursor := fun _ => None;
     drv_mogrify := fun _ q _ => Ret q;
     drv_execute := fun _ _ _ => Ret no_result_set;
     drv_executemany := fun _ _ _ => Ret 1%Z;
     drv_read_script := fun _ _ => Ret "select 1" |}.

(** A driver whose statements fail with [err]. *)
Definition driver_statement_error (err : exn) : driver :=
  {| drv_connect := fun _ => None;
     drv_register_hstore := fun _ => None;
     drv_cursor := fun _ => None;
     drv_mogrify := fun _ q _ => Ret q;
     drv_execute := fun _ _ _ => Raise err;
     drv_executemany := fun _ _ _ => Raise err;
     drv_read_script := fun _ _ => Ret "select 1" |}.

(** [query.count("%s")]: the number of parameter markers, one less than
    the number of segments between them. *)
Definition marker_count (query : string) : nat := length (PyStr.split "%s" query) - 1.

(** ** [Connection.hstore] *)

(** The double-quote character *)
Definition dquote : string := String "034"%char EmptyString.

(** ['"%s"=>"%s"' % (str(k), str(v))] *)
Definition hstore_item (kv : string * string) : string :=
  dquote +:+ fst kv +:+ dquote +:+ "=>" +:+ dquote +:+ snd kv +:+ dquote.

(** [Connection.hstore], on the items of the dict in the order in which
    [dict.items()] yields them, keys and values already passed through
    [str]. *)
Definition hstore (items : list (string * string)) : string :=
  PyStr.join "," (map hstore_item items).

(** [s.count(c)] for a character *)
Fixpoint count_char (c : ascii) (s : string) : nat :=
  match s with
  | EmptyString => 0
  | String a s' => (if Ascii.eqb a c then 1 else 0) + count_char c s'
  end.

(** The double quotes that the keys and values of a dict hold. *)
Definition quotes_in (items : list (string * string)) : nat :=
  list_sum (map (fun kv => count_char "034" (fst kv) + count_char "034" (snd kv)) items).

(** * Properties *)

(** ** The string primitives on examples *)

Example split_ex1 : PyStr.split "%s" "a=%s, b=%s" = ["a="; ", b="; ""].
Proof. reflexivity. Qed.

Example split_ex2 : PyStr.split "%s" "no marker" = ["no marker"].
Proof. reflexivity. Qed.

Example replace_ex1 :
  PyStr.replace "__data__" "x=%s" "set __data__ , __data__data__" = "set x=%s , x=%sdata__".
Proof. reflexivity. Qed.

Example startswith_ci_ex1 :
  PyStr.startswith_ci "set search_path" "SET Search_Path = a; select 1" = true.
Proof. reflexivity. Qed.

Example collapse_ex1 :
  PyStr.collapse_newlines ("select 1" +:+ String "010"%char ("   from t" +:+ String "010"%char ""))
  = "select 1 from t ".
Proof. reflexivity. Qed.

(** ** Facts about strings *)

#[local] Arguments String.append : simpl nomatch.

Lemma append_nil_r (s : string) : s +:+ "" = s.
Proof. induction s as [|a s IH]; simpl; [reflexivity|]. now rewrite IH. Qed.

Lemma append_assoc (s t u : string) : (s +:+ t) +:+ u = s +:+ (t +:+ u).
Proof. induction s as [|a s IH]; simpl; [reflexivity|]. now rewrite IH. Qed.

Lemma length_append (s t : string) :
  String.length (s +:+ t) = String.length s + String.length t.
Proof. induction s as [|a s IH]; simpl; [reflexivity|]. now rewrite IH. Qed.

Lemma append_cons (c : ascii) (s t : string) : String c s +:+ t = String c (s +:+ t).
Proof. reflexivity. Qed.

Lemma startswith_spec (p s : string) :
  PyStr.startswith p s = true <-> exists r, s = p +:+ r.
Proof.
  revert s. induction p as [|a p IH]; intros s; simpl.
  - split; [intros _; now exists s | reflexivity].
  - destruct s as [|b s]; simpl.
    + split; [discriminate | intros [r Hr]; discriminate].
    + rewrite andb_true_iff, Ascii.eqb_eq, IH. split.
      * intros [-> [r ->]]. now exists r.
      * intros [r Hr]. injection Hr as -> ->. split; [reflexivity | now exists r].
Qed.

Lemma contains_spec (t s : string) : PyStr.contains t s = true <-> occurs t s.
Proof.
  induction s as [|c s IH].
  - simpl. rewrite orb_false_r, startswith_spec. split.
    + intros [r Hr]. now exists "", r.
    + intros ([|x a] & b & H); [now exists b | discriminate].
  - simpl. rewrite orb_true_iff, IH, startswith_spec. split.
    + intros [[r Hr] | (a & b & Hab)].
      * now exists "", r.
      * exists (String c a), b. simpl. now rewrite Hab.
    + intros ([|x a] & b & H).
      * left. now exists b.
      * right. injection H as -> ->. now exists a, b.
Qed.

Lemma contains_false (t s : string) : PyStr.contains t s = false <-> ~ occurs t s.
Proof.
  rewrite <- contains_spec. destruct (PyStr.contains t s); split; intros H;
    congruence || (exfalso; apply H; reflexivity).
Qed.

Lemma append_eq_le (a b c d : string) :
  a +:+ b = c +:+ d -> String.length a <= String.length c ->
  exists m, c = a +:+ m /\ b = m +:+ d.
Proof.
  revert c. induction a as [|x a IH]; intros c H Hlen.
  - exists c. split; [reflexivity | exact H].
  - destruct c as [|y c]; simpl in Hlen; [lia|].
    simpl in H. injection H as -> H.
    destruct (IH c H ltac:(lia)) as (m & -> & ->). now exists m.
Qed.

Lemma append_eq_cases (a b c d : string) :
  a +:+ b = c +:+ d ->
  (exists m, c = a +:+ m /\ b = m +:+ d) \/
  (exists m, m <> "" /\ a = c +:+ m /\ d = m +:+ b).
Proof.
  intros H. destruct (Nat.le_gt_cases (String.length a) (String.length c)) as [Hl|Hl].
  - left. now apply append_eq_le.
  - right. symmetry in H. destruct (append_eq_le c d a b H ltac:(lia)) as (m & -> & ->).
    exists m. repeat split. intros ->. rewrite append_nil_r in Hl. lia.
Qed.

Lemma drop_append (a b : string) : PyStr.drop (String.length a) (a +:+ b) = b.
Proof. induction a as [|x a IH]; simpl; [now destruct b | exact IH]. Qed.

Lemma replace_go_skip (old new : string) (k : nat) (s : string) :
  PyStr.replace_go old new k s = PyStr.replace_go old new 0 (PyStr.drop k s).
Proof.
  revert k. induction s as [|c s IH]; intros k.
  - destruct k; reflexivity.
  - destruct k as [|k]; [reflexivity|]. simpl PyStr.drop. rewrite <- IH. reflexivity.
Qed.

(** The equations of [str.replace]. *)
Lemma replace_match (old new rest : string) :
  old <> "" -> PyStr.replace old new (old +:+ rest) = new +:+ PyStr.replace old new rest.
Proof.
  intros Hne. destruct old as [|c old]; [contradiction|].
  unfold PyStr.replace. simpl PyStr.replace_go.
  assert (Hs : PyStr.startswith (String c old) (String c (old +:+ rest)) = true)
    by (apply startswith_spec; now exists rest).
  simpl in Hs. rewrite Hs. f_equal.
  rewrite replace_go_skip, Nat.sub_0_r, drop_append. reflexivity.
Qed.

Lemma replace_no_match (old new : string) (c : ascii) (s : string) :
  PyStr.startswith old (String c s) = false ->
  PyStr.replace old new (String c s) = String c (PyStr.replace old new s).
Proof.
  intros H. unfold PyStr.replace. simpl PyStr.replace_go.
  simpl in H. rewrite H. reflexivity.
Qed.

Lemma append_snoc (pre : string) (c : ascii) (s : string) :
  pre +:+ String c s = (pre +:+ String c "") +:+ s.
Proof. now rewrite append_assoc. Qed.

Lemma length_zero (s : string) : String.length s = 0 -> s = "".
Proof. destruct s; [reflexivity | discriminate]. Qed.

Lemma length_pos (s : string) : s <> "" -> 0 < String.length s.
Proof. destruct s; [contradiction | simpl; lia]. Qed.

Lemma has_char_append (c : ascii) (a b : string) :
  has_char c (a +:+ b) = has_char c a || has_char c b.
Proof.
  induction a as [|x a IH]; simpl; [reflexivity|].
  now rewrite IH, orb_assoc.
Qed.

Lemma has_char_last (t2 y x : string) (c : ascii) :
  t2 +:+ String c "" = y +:+ x -> x <> "" -> has_char c x = true.
Proof.
  intros H Hx.
  destruct (append_eq_cases _ _ _ _ H) as [(m & -> & Hm) | (m & _ & -> & ->)].
  - destruct m as [|mc m].
    + simpl in Hm. subst x. simpl. now rewrite Ascii.eqb_refl.
    + simpl in Hm. injection Hm as _ Hm. destruct m; [|discriminate].
      simpl in Hm. now subst x.
  - rewrite has_char_append. simpl. rewrite Ascii.eqb_refl. apply orb_true_r.
Qed.

Lemma startswith_char_append (c : ascii) (a b : string) :
  PyStr.startswith (String c "") (a +:+ b)
  = match a with
    | EmptyString => PyStr.startswith (String c "") b
    | String _ _ => PyStr.startswith (String c "") a
    end.
Proof. destruct a as [|x a]; [reflexivity|]. simpl. now rewrite !andb_true_r. Qed.

Lemma last_is_append (c : ascii) (a b : string) :
  last_is c (a +:+ b)
  = match b with
    | EmptyString => last_is c a
    | String _ _ => last_is c b
    end.
Proof.
  induction a as [|x a IH].
  - simpl. destruct b; reflexivity.
  - destruct b as [|y b]; [now rewrite append_nil_r|].
    change (String x a +:+ String y b) with (String x (a +:+ String y b)).
    cbn [last_is]. rewrite IH.
    destruct (a +:+ String y b) eqn:E; [|reflexivity].
    destruct a; discriminate.
Qed.

Lemma contains_pair_append (a b : string) :
  PyStr.contains "__" (a +:+ b)
  = PyStr.contains "__" a || PyStr.contains "__" b
    || (last_is "_" a && PyStr.startswith "_" b).
Proof.
  remember (PyStr.startswith "_" b) as sb eqn:Esb.
  remember (PyStr.contains "__" b) as cb eqn:Ecb.
  induction a as [|x a IH].
  - simpl. rewrite <- Ecb. now rewrite orb_false_r.
  - change (String x a +:+ b) with (String x (a +:+ b)).
    cbn [PyStr.contains]. rewrite IH.
    change (PyStr.startswith "__" (String x (a +:+ b)))
      with (Ascii.eqb "_" x && PyStr.startswith "_" (a +:+ b)).
    change (PyStr.startswith "__" (String x a))
      with (Ascii.eqb "_" x && PyStr.startswith "_" a).
    rewrite startswith_char_append, <- Esb.
    destruct a as [|y a].
    + change (last_is "_" (String x "")) with (Ascii.eqb x "_").
      change (last_is "_" "") with false.
      change (PyStr.contains "__" "") with false.
      change (PyStr.startswith "_" "") with false.
      rewrite (Ascii.eqb_sym x "_").
      destruct (Ascii.eqb "_" x), sb, cb; reflexivity.
    + change (last_is "_" (String x (String y a))) with (last_is "_" (String y a)).
      destruct (Ascii.eqb "_" x && PyStr.startswith "_" (String y a)),
        (PyStr.contains "__" (String y a)), cb,
        (last_is "_" (String y a) && sb); reflexivity.
Qed.

Lemma splits_complete (a b : string) : In (a, b) (splits (a +:+ b)).
Proof.
  induction a as [|c a IH].
  - simpl. destruct b; left; reflexivity.
  - simpl. right. apply in_map_iff. exists (a, b). split; [reflexivity | exact IH].
Qed.

(** ** Session-state prefixing (C2, C5) *)

Lemma truthy_Some (o : option string) :
  truthy o = true -> exists s, o = Some s /\ s <> "".
Proof.
  destruct o as [s|]; simpl; [|discriminate].
  intros H. exists s. split; [reflexivity|].
  intros ->. discriminate.
Qed.

Lemma truthy_Some_ne (s : string) : s <> "" -> truthy (Some s) = true.
Proof.
  intros H. simpl. destruct (String.eqb s "") eqn:E; [|reflexivity].
  apply String.eqb_eq in E. contradiction.
Qed.

Lemma set_search_path_timezone (c : Connection) (q : string) :
  fst (_set_search_path c q) = timezone_prefix c +:+ fst (apply_search_path c q)
  /\ snd (_set_search_path c q) = snd (apply_search_path c q).
Proof.
  unfold _set_search_path, timezone_prefix.
  destruct (apply_search_path c q) as [q' c'] eqn:E. simpl.
  assert (Htz : timezone c' = timezone c).
  { unfold apply_search_path in E.
    destruct (truthy (_change_path c) && negb (has_search_path q));
      [|destruct (truthy (_search_path c) && negb (has_search_path q))];
      injection E as <- <-; reflexivity. }
  rewrite Htz. destruct (truthy (timezone c)); split; reflexivity.
Qed.

(** C2, as the code has it: a build consumes the one-shot override exactly
    when it applies it, that is when the override is a non-empty name and
    the template does not begin with [set search_path]; it then stands in
    front of the template in place of the persistent default, and the
    next build falls back to the default.  Any other build leaves the
    override as it was. *)
Theorem one_shot_consumed_when_applied (c : Connection) (q q2 : string) :
  (truthy (_change_path c) = true -> has_search_path q = false ->
     fst (_set_search_path c q)
       = timezone_prefix c +:+ search_path_stmt (_change_path c) +:+ q
     /\ _change_path (snd (_set_search_path c q)) = None
     /\ (has_search_path q2 = false ->
         fst (_set_search_path (snd (_set_search_path c q)) q2)
           = timezone_prefix c +:+ default_prefix c +:+ q2))
  /\ (truthy (_change_path c) && negb (has_search_path q) = false ->
      _change_path (snd (_set_search_path c q)) = _change_path c).
Proof.
  split.
  - intros Ht Hq.
    destruct (set_search_path_timezone c q) as [H1 H2].
    rewrite H1, H2. unfold apply_search_path. rewrite Ht, Hq. simpl.
    split; [reflexivity|]. split; [reflexivity|].
    intros Hq2.
    destruct (set_search_path_timezone (set_change_path None c) q2) as [H3 _].
    rewrite H3. unfold apply_search_path, timezone_prefix, default_prefix.
    simpl. rewrite Hq2.
    destruct (truthy (_search_path c)); reflexivity.
  - intros Hn.
    destruct (set_search_path_timezone c q) as [_ H2]. rewrite H2.
    unfold apply_search_path. rewrite Hn.
    destruct (truthy (_search_path c) && negb (has_search_path q)); reflexivity.
Qed.

Lemma one_shot_consumed_when_applied_witness :
  let c := conn (Some "+00") (Some "public") (Some "tenant1") None in
  fst (_set_search_path c "select 1")
    = "set timezone = '+00';set search_path = tenant1;select 1"
  /\ _change_path (snd (_set_search_path c "select 1")) = None
  /\ fst (_set_search_path (snd (_set_search_path c "select 1")) "select 2")
     = "set timezone = '+00';set search_path = public;select 2".
Proof.
  destruct (one_shot_consumed_when_applied
              (conn (Some "+00") (Some "public") (Some "tenant1") None)
              "select 1" "select 2") as [H _].
  destruct (H eq_refl eq_refl) as (H1 & H2 & H3).
  split; [exact H1|]. split; [exact H2 | exact (H3 eq_refl)].
Defined.

(** C2, as stated, fails: an override set while the template already
    begins with [set search_path] survives the build and is applied to the
    statement after it, and an empty override is never cleared. *)
Lemma one_shot_not_always_cleared :
  let c := conn None (Some "public") (Some "foo") None in
  _change_path (snd (_set_search_path c "set search_path = bar;select 1")) = Some "foo"
  /\ fst (_set_search_path (snd (_set_search_path c "set search_path = bar;select 1")) "select 2")
     = "set search_path = foo;select 2"
  /\ _change_path (snd (_set_search_path (conn None None (Some "") None) "select 1")) = Some "".
Proof. repeat split; reflexivity. Qed.

(** C5: with a timezone and a schema configured, and a template that does
    not begin with [set search_path], the timezone directive stands first
    and the search-path directive second. *)
Theorem timezone_precedes_search_path (c : Connection) (q tz schema : string) :
  has_search_path q = false ->
  timezone c = Some tz -> tz <> "" ->
  effective_schema c = Some schema -> schema <> "" ->
  fst (_set_search_path c q)
    = "set timezone = '" +:+ tz +:+ "';" +:+ "set search_path = " +:+ schema +:+ ";" +:+ q.
Proof.
  intros Hq Htz Hne Hs Hsne.
  destruct (set_search_path_timezone c q) as [H1 _]. rewrite H1.
  unfold timezone_prefix. rewrite Htz, (truthy_Some_ne _ Hne).
  unfold timezone_stmt, opt_str.
  rewrite !append_assoc. simpl. f_equal. f_equal.
  unfold effective_schema in Hs. unfold apply_search_path. rewrite Hq. simpl.
  destruct (truthy (_change_path c)) eqn:E; simpl.
  - rewrite Hs. unfold search_path_stmt, opt_str.
    rewrite !append_assoc. reflexivity.
  - rewrite Hs, (truthy_Some_ne _ Hsne). simpl.
    unfold search_path_stmt, opt_str. rewrite !append_assoc. reflexivity.
Qed.

Lemma timezone_precedes_search_path_witness :
  fst (_set_search_path (conn (Some "+00") (Some "public") (Some "tenant1") None) "select 1")
  = "set timezone = '+00';set search_path = tenant1;select 1"
  /\ fst (_set_search_path (conn (Some "+00") (Some "public") None None) "select 1")
  = "set timezone = '+00';set search_path = public;select 1".
Proof.
  split.
  - apply (timezone_precedes_search_path
             (conn (Some "+00") (Some "public") (Some "tenant1") None)
             "select 1" "+00" "tenant1");
      [reflexivity | reflexivity | discriminate | reflexivity | discriminate].
  - apply (timezone_precedes_search_path
             (conn (Some "+00") (Some "public") None None)
             "select 1" "+00" "public");
      [reflexivity | reflexivity | discriminate | reflexivity | discriminate].
Defined.

Lemma set_search_path_prefix (c : Connection) (q : string) :
  fst (_set_search_path c q) = timezone_prefix c +:+ schema_prefix c q +:+ q.
Proof.
  destruct (set_search_path_timezone c q) as [H _]. rewrite H. f_equal.
  unfold apply_search_path, schema_prefix, default_prefix.
  destruct (has_search_path q); simpl; rewrite ?andb_false_r; [reflexivity|].
  rewrite ?andb_true_r.
  destruct (truthy (_change_path c)); [reflexivity|].
  destruct (truthy (_search_path c)); reflexivity.
Qed.

Lemma set_search_path_session (c c' : Connection) (q : string) :
  session c = session c' ->
  fst (_set_search_path c q) = fst (_set_search_path c' q)
  /\ session (snd (_set_search_path c q)) = session (snd (_set_search_path c' q)).
Proof.
  unfold session. intros [= Hh Hl Ht Hs Hc].
  unfold _set_search_path, apply_search_path. rewrite Hc, Hs.
  destruct (truthy (_change_path c') && negb (has_search_path q));
    [|destruct (truthy (_search_path c') && negb (has_search_path q))];
    simpl; rewrite ?Ht, ?Hh, ?Hl, ?Hs, ?Hc; split; reflexivity.
Qed.

Lemma built_statement_session (c c' : Connection) (q : string) (ps : list value)
    (kw : kwargs_t) :
  session c = session c' -> built_statement c q ps kw = built_statement c' q ps kw.
Proof.
  intros H. unfold built_statement. rewrite <- !set_search_path_prefix.
  destruct (set_search_path_session c c' q H) as [-> _]. reflexivity.
Qed.

(** ** The keyword rewrite: where the values go (C4) *)

Lemma fold_min_head (l : list nat) (x : nat) :
  Forall (fun y => x <= y) l -> fold_left Nat.min l x = x.
Proof.
  induction l as [|y l IH]; intros H; simpl; [reflexivity|].
  inversion H; subst. rewrite Nat.min_l by assumption. now apply IH.
Qed.

Lemma hits_from_spec (f : string -> bool) (l : list string) : forall n,
  let hits := map fst (List.filter (fun xp => f (snd xp)) (enumerate_from n l)) in
  Forall (fun y => n <= y) hits /\
  match find_index f l with
  | Some i => exists tl, hits = (n + i) :: tl /\ Forall (fun y => n + i <= y) tl
  | None => hits = []
  end.
Proof.
  induction l as [|x l IH]; intros n; simpl.
  - split; [constructor | reflexivity].
  - destruct (IH (S n)) as [Hge Hfind].
    assert (Hge' : Forall (fun y => n <= y)
              (map fst (List.filter (fun xp => f (snd xp)) (enumerate_from (S n) l)))).
    { eapply List.Forall_impl; [|exact Hge]. simpl. intros; lia. }
    destruct (f x) eqn:Efx; simpl.
    + split; [constructor; [lia | exact Hge']|].
      eexists. split; [rewrite Nat.add_0_r; reflexivity|].
      rewrite Nat.add_0_r. exact Hge'.
    + split; [exact Hge'|].
      destruct (find_index f l) as [i|]; simpl.
      * destruct Hfind as (tl & -> & Htl). exists tl.
        split; [f_equal; lia|].
        eapply List.Forall_impl; [|exact Htl]. simpl. intros; lia.
      * exact Hfind.
Qed.

Lemma parampos_earliest (q : string) : parampos q = earliest_data_segment q.
Proof.
  unfold parampos, earliest_data_segment, enumerate.
  destruct (hits_from_spec (PyStr.contains "__data__") (PyStr.split "%s" q) 0) as [_ H].
  destruct (find_index (PyStr.contains "__data__") (PyStr.split "%s" q)) as [i|].
  - destruct H as (tl & -> & Htl). simpl in *. now apply fold_min_head.
  - rewrite H. reflexivity.
Qed.

Lemma insert_in_order {A : Type} (p : nat) (vals ps : list A) :
  p <= length ps ->
  fold_left (fun ps v => list_insert_at p v ps) (rev vals) ps
  = firstn p ps ++ vals ++ skipn p ps.
Proof.
  intros Hp. rewrite <- fold_left_rev_right, rev_involutive.
  induction vals as [|v vals IH]; simpl.
  - now rewrite firstn_skipn.
  - rewrite IH. unfold list_insert_at.
    assert (Hlen : length (firstn p ps) = p) by (rewrite length_firstn; lia).
    rewrite firstn_app, Hlen, Nat.sub_diag, firstn_O, app_nil_r.
    rewrite firstn_all2 by lia.
    rewrite skipn_app, Hlen, Nat.sub_diag. simpl.
    rewrite skipn_all2 by lia. reflexivity.
Qed.

(** C4, as the code has it: the insertion position is the index of the
    earliest marker-split segment of the statement being rewritten that
    holds [__data__] (0 when there is none), and when that position is
    within the positional parameters the keyword values stand there in the
    order in which the dict of keyword arguments yields them; for the call
    [query("INSERT INTO t (__keys__) VALUES (__values__)", id=1, name="a")]
    the dict yields [id], [name], and a connection built with the default
    timezone sends the expected statement behind its timezone directive,
    with the parameters [(1, "a")]. *)
Theorem keyword_values_inserted_in_order (q : string) (ps : list value) (kw : kwargs_t) :
  parampos q <= length ps ->
  parampos q = earliest_data_segment q
  /\ snd (rewrite q ps kw)
     = firstn (parampos q) ps ++ map snd kw ++ skipn (parampos q) ps
  /\ PyDict.kwargs [("id", VInt 1); ("name", VStr "a")]
     = Some [("id", VInt 1); ("name", VStr "a")]
  /\ trace (snd (query (driver_ok no_result_set)
                       "INSERT INTO t (__keys__) VALUES (__values__)" []
                       [("id", VInt 1); ("name", VStr "a")] connected_world))
     = [ECursor 0;
        ECursorExecute 0 "set timezone = '+00';INSERT INTO t (id,name) VALUES (%s,%s)"
                       (Some [VInt 1; VStr "a"])].
Proof.
  intros Hp. split; [apply parampos_earliest|].
  split; [|split; vm_compute; reflexivity].
  destruct kw as [|kv kw].
  - cbn [rewrite snd map app]. now rewrite firstn_skipn.
  - unfold rewrite, rewrite_kwargs. cbv zeta. unfold snd at 1.
    now apply insert_in_order.
Qed.

Lemma keyword_values_inserted_in_order_witness :
  parampos "UPDATE t SET x=%s, __data__ WHERE id=%s" = 1
  /\ snd (rewrite "UPDATE t SET x=%s, __data__ WHERE id=%s" [VInt 9; VInt 5]
                  [("id", VInt 1); ("name", VStr "a")])
     = [VInt 9; VInt 1; VStr "a"; VInt 5].
Proof.
  split; [reflexivity|].
  destruct (keyword_values_inserted_in_order
              "UPDATE t SET x=%s, __data__ WHERE id=%s" [VInt 9; VInt 5]
              [("id", VInt 1); ("name", VStr "a")]) as (_ & H & _);
    [vm_compute; lia | exact H].
Defined.

(** C4, as stated, fails in four ways.  (1) When the split gives a
    position past the end of the positional parameters every insertion
    appends, and the keyword values end up in reverse order: in the first
    call below the marker-split also cuts the escaped percent sign of
    ['100%%sure'], the statement binds with its two real markers, and [a]
    gets the value of [b].  (2) The dict of the call [b=2, a=1] yields [a]
    before [b], so the values follow the hash order of the keys, not the
    order of the declaration.  (3) On a connection built with the default
    timezone the statement of the INSERT example is sent behind the
    timezone directive, not bare.  (4) The position is taken on the
    statement behind its session prefix, so a marker in the prefix moves
    it. *)
Lemma keyword_values_out_of_declaration_order :
  let sent q kw := trace (snd (query (driver_ok no_result_set) q [] kw connected_world)) in
  (parampos "UPDATE t SET note='100%%sure', __data__" = 1
   /\ sent "UPDATE t SET note='100%%sure', __data__" [("a", VInt 1); ("b", VInt 2)]
      = [ECursor 0;
         ECursorExecute 0 "set timezone = '+00';UPDATE t SET note='100%%sure', a=%s,b=%s"
                        (Some [VInt 2; VInt 1])])
  /\ (PyDict.kwargs [("b", VInt 2); ("a", VInt 1)] = Some [("a", VInt 1); ("b", VInt 2)]
      /\ rewrite "INSERT INTO t (__keys__) VALUES (__values__)" []
                 [("a", VInt 1); ("b", VInt 2)]
         = ("INSERT INTO t (a,b) VALUES (%s,%s)", [VInt 1; VInt 2]))
  /\ statements (sent "INSERT INTO t (__keys__) VALUES (__values__)"
                      [("id", VInt 1); ("name", VStr "a")])
     <> ["INSERT INTO t (id,name) VALUES (%s,%s)"]
  /\ (let c := conn None (Some "a%sb") None (Some 0) in
      earliest_data_segment "UPDATE t SET __data__" = 0
      /\ parampos (fst (_set_search_path c "UPDATE t SET __data__")) = 1).
Proof.
  intros sent. subst sent. cbv beta.
  repeat split; try (vm_compute; reflexivity).
  vm_compute. discriminate.
Qed.

(** ** The keyword rewrite: which tokens remain (C3) *)

(** Replacing [old] by an inert text leaves no occurrence of [t], provided
    that in the text still to be read [t] can only begin where [old]
    does, and that the text already written holds no [t]. *)
Lemma replace_free (t old new : string) :
  old <> "" -> inert t new ->
  forall n s pre,
    String.length s <= n ->
    (forall a b, s = a +:+ b -> PyStr.startswith t b = true ->
                 PyStr.startswith old b = true) ->
    ~ occurs_before (String.length pre) t (pre +:+ s) ->
    ~ occurs t (pre +:+ PyStr.replace old new s).
Proof.
  intros Hold Hin.
  assert (Ht : t <> "").
  { intros ->. apply (inert_inside _ _ Hin). now exists "", new. }
  induction n as [|n IH]; intros s pre Hlen Hguard Hbefore;
    (destruct s as [|c s]; [|simpl in Hlen; try lia]).
  1, 2: intros (a & b & Heq); apply Hbefore; exists a, b; split;
    [exact Heq|]; change (PyStr.replace old new "") with "" in Heq;
    rewrite append_nil_r in Heq; rewrite Heq, !length_append;
    pose proof (length_pos t Ht); lia.
  destruct (PyStr.startswith old (String c s)) eqn:Hm.
  - apply startswith_spec in Hm as [rest Hrest].
    rewrite Hrest, (replace_match _ _ _ Hold), <- append_assoc.
    assert (Hlr : String.length rest <= n).
    { apply (f_equal String.length) in Hrest. rewrite length_append in Hrest.
      simpl in Hrest. pose proof (length_pos old Hold). lia. }
    apply (IH rest (pre +:+ new) Hlr).
    + intros a b Hab. apply (Hguard (old +:+ a) b).
      now rewrite Hrest, Hab, append_assoc.
    + intros (a & b & Heq & Hlt). rewrite length_append in Hlt.
      rewrite append_assoc in Heq.
      destruct (append_eq_cases _ _ _ _ Heq) as [(m & -> & Hm1) | (p' & Hp' & -> & Hm1)].
      * rewrite length_append in Hlt.
        destruct (append_eq_cases _ _ _ _ Hm1) as [(m2 & -> & _) | (x & Hx & -> & Hm2)].
        { rewrite length_append in Hlt. lia. }
        destruct (append_eq_cases _ _ _ _ Hm2) as [(y & -> & _) | (y & Hy & -> & _)].
        { apply (inert_inside _ _ Hin). now exists m, y. }
        { exact (inert_right _ _ Hin x y m eq_refl eq_refl Hx Hy). }
      * destruct (append_eq_cases _ _ _ _ Hm1) as [(y & -> & _) | (y & Hy & -> & Hm2)].
        { apply Hbefore. exists a, (y +:+ String c s). split.
          - now rewrite !append_assoc.
          - rewrite !length_append. pose proof (length_pos t Ht). lia. }
        destruct (append_eq_cases _ _ _ _ Hm2) as [(z & -> & _) | (z & Hz & Hnew & _)].
        { destruct z as [|zc z].
          - destruct new as [|nc new']; [now rewrite append_nil_r in Hy|].
            refine (inert_left _ _ Hin (String nc new') p' "" _ _ _ Hp');
              [now rewrite append_nil_r | now rewrite append_nil_r | discriminate].
          - refine (inert_cover _ _ Hin p' (String zc z) _ Hp' _);
              [reflexivity | discriminate]. }
        { exact (inert_left _ _ Hin y p' z Hnew eq_refl Hy Hp'). }
  - rewrite (replace_no_match _ _ _ _ Hm), append_snoc.
    apply (IH s (pre +:+ String c "") ltac:(lia)).
    + intros a b Hab. apply (Hguard (String c a) b). now rewrite Hab.
    + rewrite <- append_snoc. intros (a & b & Heq & Hlt).
      rewrite length_append in Hlt. simpl in Hlt.
      destruct (Nat.lt_ge_cases (String.length a) (String.length pre)) as [Hl|Hl].
      * apply Hbefore. now exists a, b.
      * destruct (append_eq_le _ _ _ _ Heq Hl) as (m & -> & Hm1).
        rewrite length_append in Hlt.
        rewrite (length_zero m ltac:(lia)) in Hm1. simpl in Hm1.
        assert (Hst : PyStr.startswith t (String c s) = true)
          by (apply startswith_spec; now exists b).
        rewrite (Hguard "" (String c s) eq_refl Hst) in Hm. discriminate.
Qed.

Lemma replace_removes (old new s : string) :
  old <> "" -> inert old new -> ~ occurs old (PyStr.replace old new s).
Proof.
  intros Hold Hin.
  apply (replace_free old old new Hold Hin (String.length s) s "" (Nat.le_refl _)).
  - auto.
  - intros (a & b & _ & Hlt). simpl in Hlt. lia.
Qed.

Lemma replace_keeps_free (t old new s : string) :
  old <> "" -> inert t new -> ~ occurs t s -> ~ occurs t (PyStr.replace old new s).
Proof.
  intros Hold Hin Hfree.
  apply (replace_free t old new Hold Hin (String.length s) s "" (Nat.le_refl _)).
  - intros a b -> Hst. apply startswith_spec in Hst as [r ->].
    exfalso. apply Hfree. now exists a, r.
  - intros (a & b & _ & Hlt). simpl in Hlt. lia.
Qed.

(** A text without the first and last character of [t], and not an inner
    part of [t], is inert for [t]. *)
Lemma inert_without_ends (t r t1 t2 : string) (c : ascii) :
  t = String c t1 -> t = t2 +:+ String c "" ->
  has_char c r = false ->
  (forall a b, t = a +:+ r +:+ b -> a <> "" -> b <> "" -> False) ->
  inert t r.
Proof.
  intros Hhead Hlast Hr Hcover. split.
  - intros (a & b & Hab). rewrite Hab, Hhead, !has_char_append in Hr.
    simpl in Hr. rewrite Ascii.eqb_refl in Hr. simpl in Hr.
    rewrite orb_true_r in Hr. discriminate.
  - intros x y z Hrz Ht Hx _. destruct x as [|xc x]; [contradiction|].
    rewrite Hhead in Ht. simpl in Ht. injection Ht as <- _.
    rewrite Hrz, has_char_append in Hr. simpl in Hr.
    rewrite Ascii.eqb_refl in Hr. simpl in Hr. rewrite orb_true_r in Hr. discriminate.
  - intros x y z Hrz Ht Hx _. rewrite Hlast in Ht.
    pose proof (has_char_last _ _ _ _ Ht Hx) as Hc.
    rewrite Hrz, has_char_append, Hc in Hr. discriminate.
  - exact Hcover.
Qed.

Lemma no_cover_foreign (c : ascii) (t r : string) :
  has_char c r = true -> has_char c t = false ->
  forall a b, t = a +:+ r +:+ b -> a <> "" -> b <> "" -> False.
Proof.
  intros Hr Ht a b Hab _ _. rewrite Hab, !has_char_append, Hr in Ht.
  rewrite orb_true_r in Ht. discriminate.
Qed.

Lemma inner_parts_spec (p : string -> bool) (t : string) :
  inner_parts_satisfy p t = true ->
  forall a r b, t = a +:+ r +:+ b -> a <> "" -> b <> "" -> p r = true.
Proof.
  unfold inner_parts_satisfy. intros H a r b -> Ha Hb.
  rewrite forallb_forall in H.
  specialize (H (a, r +:+ b) (splits_complete a (r +:+ b))). cbn [fst snd] in H.
  rewrite forallb_forall in H.
  specialize (H (r, b) (splits_complete r b)). cbn [fst snd] in H.
  apply String.eqb_neq in Ha, Hb. rewrite Ha, Hb in H. exact H.
Qed.

Lemma has_char_join_false (c : ascii) (sep : string) (l : list string) :
  has_char c sep = false ->
  forallb (fun x => negb (has_char c x)) l = true ->
  has_char c (PyStr.join sep l) = false.
Proof.
  intros Hsep. induction l as [|x l IH]; simpl; [reflexivity|].
  rewrite andb_true_iff, negb_true_iff. intros [Hx Hl].
  destruct l as [|y l]; [exact Hx|].
  rewrite !has_char_append, Hx, Hsep. simpl. exact (IH Hl).
Qed.

Lemma has_char_join_head (c : ascii) (sep x : string) (l : list string) :
  has_char c x = true -> has_char c (PyStr.join sep (x :: l)) = true.
Proof.
  intros Hx. simpl. destruct l as [|y l]; [exact Hx|].
  now rewrite has_char_append, Hx.
Qed.

Lemma length_insert_at {A : Type} (i : nat) (v : A) (l : list A) :
  length (list_insert_at i v l) = S (length l).
Proof.
  unfold list_insert_at. rewrite length_app. simpl.
  rewrite Nat.add_succ_r. f_equal.
  rewrite <- (firstn_skipn i l) at 3. now rewrite length_app.
Qed.

Lemma length_insert_all {A : Type} (i : nat) (vals ps : list A) :
  length (fold_left (fun ps v => list_insert_at i v ps) vals ps) = length ps + length vals.
Proof.
  revert ps. induction vals as [|v vals IH]; intros ps; simpl; [lia|].
  rewrite IH, length_insert_at. lia.
Qed.

(** The marker list [%s,%s,...] is inert for each of the three tokens. *)
Lemma markers_inert (t t1 t2 : string) (kw : kwargs_t) :
  kw <> [] ->
  t = String "_" t1 -> t = t2 +:+ "_" -> has_char "%" t = false ->
  inert t (PyStr.join "," (map (fun _ => "%s") kw)).
Proof.
  intros Hkw Hhead Hlast Hpc.
  apply (inert_without_ends t _ t1 t2 "_" Hhead Hlast).
  - apply has_char_join_false; [reflexivity|].
    apply forallb_forall. intros x Hx. apply in_map_iff in Hx as (_ & <- & _). reflexivity.
  - apply (no_cover_foreign "%"); [|exact Hpc].
    destruct kw as [|kv kw]; [contradiction|]. now apply has_char_join_head.
Qed.

Lemma clean_append (a b : string) : clean a = true -> clean b = true -> clean (a +:+ b) = true.
Proof.
  unfold clean. rewrite !andb_true_iff, !negb_true_iff.
  intros [[Ha1 Ha2] Ha3] [[Hb1 Hb2] Hb3].
  rewrite startswith_char_append, last_is_append, contains_pair_append.
  rewrite Ha3, Hb3, Ha2. simpl.
  destruct a, b; auto.
Qed.

Lemma clean_join (sep : string) (l : list string) :
  clean sep = true -> forallb clean l = true -> clean (PyStr.join sep l) = true.
Proof.
  intros Hsep. induction l as [|x l IH]; simpl; [reflexivity|].
  rewrite andb_true_iff. intros [Hx Hl].
  destruct l as [|y l]; [exact Hx|].
  apply clean_append; [exact Hx|]. apply clean_append; [exact Hsep | exact (IH Hl)].
Qed.

(** A clean text that is not an inner part of the token [__w__] is inert
    for it. *)
Lemma inert_clean (t rest r : string) :
  t = "__" +:+ rest -> ends_marked t = true -> clean r = true ->
  (forall a b, t = a +:+ r +:+ b -> a <> "" -> b <> "" -> False) ->
  inert t r.
Proof.
  unfold clean. rewrite !andb_true_iff, !negb_true_iff.
  intros Ht Hends [[Hr1 Hr2] Hr3] Hcover.
  apply contains_false in Hr3. split.
  - intros (a & b & Hab). apply Hr3. exists a, (rest +:+ b).
    rewrite Hab, Ht. now rewrite !append_assoc.
  - intros x y z Hrz Htx Hx _. rewrite Ht in Htx.
    destruct x as [|c1 [|c2 x]]; [contradiction | |].
    + simpl in Htx. injection Htx as <- _.
      rewrite Hrz, last_is_append in Hr2. discriminate.
    + simpl in Htx. injection Htx as <- <- _.
      apply Hr3. exists z, x. exact Hrz.
  - intros x y z Hrz Hty Hx Hy.
    unfold ends_marked in Hends. rewrite forallb_forall in Hends.
    specialize (Hends (y, x)). rewrite Hty in Hends.
    specialize (Hends (splits_complete y x)). cbn [fst snd] in Hends.
    apply String.eqb_neq in Hx, Hy. rewrite Hx, Hy in Hends. simpl in Hends.
    apply orb_true_iff in Hends as [He | He].
    + apply String.eqb_eq in He. subst x. rewrite Hrz in Hr1. discriminate.
    + apply contains_spec in He as (a & b & ->). apply Hr3.
      exists a, (b +:+ z). rewrite Hrz. now rewrite !append_assoc.
  - exact Hcover.
Qed.

(** The assignment list [k1=%s,k2=%s,...] is inert for [__data__] when
    the keys are clean. *)
Lemma assignments_inert (kw : kwargs_t) :
  kw <> [] ->
  forallb clean (map fst kw) = true ->
  inert "__data__" (PyStr.join "," (map (fun kv => fst kv +:+ "=%s") kw)).
Proof.
  intros Hkw Hkeys.
  apply (inert_clean "__data__" "data__"); [reflexivity | reflexivity | |].
  - apply clean_join; [reflexivity|].
    rewrite forallb_forall in *. intros x Hx.
    apply in_map_iff in Hx as (kv & <- & Hkv).
    apply clean_append; [|reflexivity].
    exact (Hkeys (fst kv) (in_map fst _ _ Hkv)).
  - apply (no_cover_foreign "="); [|reflexivity].
    destruct kw as [|kv kw]; [contradiction|].
    change (map _ (kv :: kw)) with ((fst kv +:+ "=%s") :: map (fun kv => fst kv +:+ "=%s") kw).
    apply has_char_join_head. rewrite has_char_append. apply orb_true_r.
Qed.

(** The key list [k1,k2,...] is inert for a token [__w__] when the keys
    are clean and the list is not a part of the word [w]. *)
Lemma keys_inert (t rest word : string) (keys : list string) :
  t = "__" +:+ rest -> ends_marked t = true ->
  inner_parts_satisfy (fun r => negb (clean r) || PyStr.contains r word) t = true ->
  forallb clean keys = true ->
  PyStr.contains (PyStr.join "," keys) word = false ->
  inert t (PyStr.join "," keys).
Proof.
  intros Ht Hends Hinner Hkeys Hword.
  assert (Hc : clean (PyStr.join "," keys) = true)
    by (apply clean_join; [reflexivity | exact Hkeys]).
  apply (inert_clean t rest _ Ht Hends Hc).
  intros a b Hab Ha Hb.
  pose proof (inner_parts_spec _ _ Hinner a _ b Hab Ha Hb) as H.
  cbv beta in H. rewrite Hc, Hword in H. discriminate.
Qed.

(** C3, as the code has it: for a non-empty keyword set the rewrite
    returns as many parameters as there were positional ones plus one per
    keyword, and a template without [__values__]; when no key begins or
    ends with an underscore or has two underscores in a row, and the
    comma-joined keys are not a part of the words [keys] or [data], the
    template has no [__keys__] and no [__data__] either. *)
Theorem rewrite_consumes_tokens (q : string) (ps : list value) (kw : kwargs_t) :
  kw <> [] ->
  length (snd (rewrite q ps kw)) = length ps + length kw
  /\ PyStr.contains "__values__" (fst (rewrite q ps kw)) = false
  /\ (keys_safe (map fst kw) = true ->
      PyStr.contains "__keys__" (fst (rewrite q ps kw)) = false
      /\ PyStr.contains "__data__" (fst (rewrite q ps kw)) = false).
Proof.
  intros Hkw.
  assert (Hrw : rewrite q ps kw = rewrite_kwargs q ps kw)
    by (destruct kw; [contradiction | reflexivity]).
  rewrite Hrw. unfold rewrite_kwargs. cbv zeta. cbn [fst snd].
  split; [|split].
  - rewrite length_insert_all, length_rev, length_map. reflexivity.
  - apply contains_false, replace_removes; [discriminate|].
    now apply (markers_inert "__values__" "_values__" "__values_").
  - unfold keys_safe. rewrite !andb_true_iff, !negb_true_iff.
    intros [[Hkeys Hk] Hd].
    assert (H1 : ~ occurs "__data__"
                   (PyStr.replace "__data__"
                      (PyStr.join "," (map (fun kv => fst kv +:+ "=%s") kw)) q)).
    { apply replace_removes; [discriminate | now apply assignments_inert]. }
    split; apply contains_false.
    + apply replace_keeps_free;
        [discriminate | now apply (markers_inert "__keys__" "_keys__" "__keys_") |].
      apply replace_removes; [discriminate|].
      now apply (keys_inert "__keys__" "keys__" "keys").
    + apply replace_keeps_free;
        [discriminate | now apply (markers_inert "__data__" "_data__" "__data_") |].
      apply replace_keeps_free; [discriminate | | exact H1].
      now apply (keys_inert "__data__" "data__" "data").
Qed.

Lemma rewrite_consumes_tokens_witness :
  let r := rewrite "UPDATE t SET __data__ WHERE id=%s; -- __keys__ / __values__"
                   [VInt 5] [("first_name", VStr "a"); ("age", VInt 3)] in
  length (snd r) = 3
  /\ PyStr.contains "__values__" (fst r) = false
  /\ PyStr.contains "__keys__" (fst r) = false
  /\ PyStr.contains "__data__" (fst r) = false.
Proof.
  destruct (rewrite_consumes_tokens
              "UPDATE t SET __data__ WHERE id=%s; -- __keys__ / __values__"
              [VInt 5] [("first_name", VStr "a"); ("age", VInt 3)])
    as (H1 & H2 & H3); [discriminate|].
  destruct (H3 eq_refl) as [H4 H5].
  repeat split; assumption.
Defined.

(** C3, as stated, fails: a key that spells a token, or a key that
    completes one from the underscores around [__keys__], leaves a token
    in the returned template. *)
Lemma rewrite_leaves_tokens :
  rewrite "INSERT INTO t (__keys__) VALUES (__values__) -- __data__" []
          [("__keys__", VInt 1)]
  = ("INSERT INTO t (__keys__) VALUES (%s) -- __keys__=%s", [VInt 1])
  /\ PyStr.contains "__keys__"
       (fst (rewrite "INSERT INTO t (__keys__) VALUES (__values__) -- __data__" []
                     [("__keys__", VInt 1)])) = true
  /\ rewrite "____keys____ __values__ __data__" [] [("data", VInt 1)]
     = ("__data__ %s data=%s", [VInt 1])
  /\ PyStr.contains "__data__"
       (fst (rewrite "____keys____ __values__ __data__" [] [("data", VInt 1)])) = true.
Proof. repeat split; reflexivity. Qed.

(** ** How the combinators preserve a relation on worlds *)

Section Respects.

Variable R : world -> world -> Prop.
Hypothesis R_refl : forall w, R w w.
Hypothesis R_trans : forall w1 w2 w3, R w1 w2 -> R w2 w3 -> R w1 w3.

Lemma respects_ret {A : Type} (a : A) : respects R (ret a).
Proof using R_refl R_trans. intros w. apply R_refl. Qed.

Lemma respects_raise {A : Type} (e : exn) : respects R (@raise A e).
Proof using R_refl R_trans. intros w. apply R_refl. Qed.

Lemma respects_bind {A B : Type} (m : M A) (k : A -> M B) :
  respects R m -> (forall a, respects R (k a)) -> respects R (bind m k).
Proof using R_refl R_trans.
  intros Hm Hk w. unfold bind. specialize (Hm w).
  destruct (m w) as [[a|e] w1]; simpl in *; [|exact Hm].
  eapply R_trans; [exact Hm | apply Hk].
Qed.

Lemma respects_try_except {A : Type} (body : M A) (catches : exn -> bool)
    (handler : exn -> M A) :
  respects R body -> (forall e, respects R (handler e)) ->
  respects R (try_except body catches handler).
Proof using R_refl R_trans.
  intros Hb Hh w. unfold try_except. specialize (Hb w).
  destruct (body w) as [[a|e] w1]; simpl in *; [exact Hb|].
  destruct (catches e); simpl; [|exact Hb].
  eapply R_trans; [exact Hb | apply Hh].
Qed.

Lemma respects_try_finally {A : Type} (body : M A) (final : M unit) :
  respects R body -> respects R final -> respects R (try_finally body final).
Proof using R_refl R_trans.
  intros Hb Hf w. unfold try_finally. specialize (Hb w).
  destruct (body w) as [r w1]; simpl in *. specialize (Hf w1).
  destruct (final w1) as [[[]|e] w2]; simpl in *; eapply R_trans; eauto.
Qed.

Lemma respects_get_self : respects R get_self.
Proof using R_refl R_trans. intros w. apply R_refl. Qed.

Lemma respects_get_trace : respects R get_trace.
Proof using R_refl R_trans. intros w. apply R_refl. Qed.

Lemma respects_get_cursor (c : nat) : respects R (get_cursor c).
Proof using R_refl R_trans. intros w. apply R_refl. Qed.

Lemma respects_if {A : Type} (b : bool) (m1 m2 : M A) :
  respects R m1 -> respects R m2 -> respects R (if b then m1 else m2).
Proof using R_refl R_trans. destruct b; auto. Qed.

Lemma respects_call_unit (e : event) (answer : list event -> option exn) :
  respects R (emit e) -> respects R (call_unit e answer).
Proof using R_refl R_trans.
  intros He. unfold call_unit.
  apply respects_bind; [apply respects_get_trace|]. intros tr.
  apply respects_bind; [exact He|]. intros _.
  destruct (answer tr); [apply respects_raise | apply respects_ret].
Qed.

Lemma respects_call {A : Type} (e : event) (answer : list event -> outcome A) :
  respects R (emit e) -> respects R (call e answer).
Proof using R_refl R_trans.
  intros He. unfold call.
  apply respects_bind; [apply respects_get_trace|]. intros tr.
  apply respects_bind; [exact He|]. intros _.
  destruct (answer tr); [apply respects_ret | apply respects_raise].
Qed.

End Respects.

Create HintDb respects.

Ltac respects_with Hr Ht :=
  repeat (intros;
    first
      [ apply (respects_ret _ Hr Ht)
      | apply (respects_raise _ Hr Ht)
      | apply (respects_get_self _ Hr Ht)
      | apply (respects_get_trace _ Hr Ht)
      | apply (respects_get_cursor _ Hr Ht)
      | apply (respects_bind _ Hr Ht)
      | apply (respects_try_except _ Hr Ht)
      | apply (respects_try_finally _ Hr Ht)
      | apply (respects_call_unit _ Hr Ht)
      | apply (respects_call _ Hr Ht)
      | apply (respects_if _ Hr Ht)
      | match goal with
        | |- respects _ (match ?x with _ => _ end) => destruct x
        | |- respects _ (let '(_, _) := ?x in _) => destruct x
        end
      | solve [auto with respects]
      | progress unfold log_info, log_error, cursor_mogrify, cursor_execute,
          cursor_executemany, set_search_path_m, on_operational_error ]).

(** *** The trace only grows *)

Lemma grows_refl (w : world) : grows w w.
Proof. exists []. now rewrite app_nil_r. Qed.

Lemma grows_trans (w1 w2 w3 : world) : grows w1 w2 -> grows w2 w3 -> grows w1 w3.
Proof. intros [l1 H1] [l2 H2]. exists (l1 ++ l2). now rewrite H2, H1, app_assoc. Qed.

Lemma grows_emit (e : event) : respects grows (emit e).
Proof. intros w. exists [e]. reflexivity. Qed.

Lemma grows_put_self (c : Connection) : respects grows (put_self c).
Proof. intros w. exists []. simpl. now rewrite app_nil_r. Qed.

Lemma grows_put_cursor (c : nat) (st : cursor_state) : respects grows (put_cursor c st).
Proof. intros w. exists []. simpl. now rewrite app_nil_r. Qed.

Lemma grows_new_cursor : respects grows new_cursor.
Proof. intros w. exists []. simpl. now rewrite app_nil_r. Qed.

#[local] Hint Resolve grows_emit grows_put_self grows_put_cursor grows_new_cursor : respects.

Ltac grows_tac := respects_with grows_refl grows_trans.

Lemma grows_register (l : list regtype) :
  respects grows (fold_right (fun t k => emit (ERegisterType (rt_name t)) ;;; k) (ret tt) l).
Proof. induction l as [|t l IH]; simpl; grows_tac. Qed.

#[local] Hint Resolve grows_register : respects.

Lemma grows_close : respects grows close.
Proof. unfold close. grows_tac. Qed.

#[local] Hint Resolve grows_close : respects.

Lemma grows_reconnect (drv : driver) : respects grows (reconnect drv).
Proof. unfold reconnect. grows_tac. Qed.

#[local] Hint Resolve grows_reconnect : respects.

Lemma grows_cursor (drv : driver) : respects grows (_cursor drv).
Proof. unfold _cursor, _ensure_connected. grows_tac. Qed.

Lemma grows_cursor_close (c : nat) : respects grows (cursor_close c).
Proof. unfold cursor_close. grows_tac. Qed.

#[local] Hint Resolve grows_cursor grows_cursor_close : respects.

Lemma grows_execute (drv : driver) (c : nat) (q : string) (ps : list value) (kw : kwargs_t) :
  respects grows (_execute drv c q ps kw).
Proof.
  unfold _execute, _execute_try, on_operational_error, set_search_path_m,
    cursor_mogrify, cursor_execute, log_info, log_error.
  grows_tac.
Qed.

Lemma grows_executemany (drv : driver) (c : nat) (q : string) (ps : list value) :
  respects grows (_executemany drv c q ps).
Proof.
  unfold _executemany, _executemany_try, on_operational_error, set_search_path_m,
    cursor_mogrify, cursor_executemany, log_info, log_error.
  grows_tac.
Qed.

#[local] Hint Resolve grows_execute grows_executemany : respects.

Lemma grows_query (drv : driver) (q : string) (ps : list value) (kw : kwargs_t) :
  respects grows (query drv q ps kw).
Proof. unfold query. grows_tac. Qed.

(** *** Closing and reconnecting *)

Lemma close_run (w : world) :
  close w =
  (Ret tt,
   match _db (self w) with
   | Some _ => {| self := set_db None (self w); cursors := cursors w;
                  trace := trace w ++ [EDbClose] |}
   | None => w
   end).
Proof.
  unfold close, bind, get_self, emit, put_self, ret.
  destruct (_db (self w)); reflexivity.
Qed.

Lemma starts_with_bind {A B : Type} (e : event) (m : M A) (k : A -> M B) (w : world) :
  starts_with e m w -> (forall a, respects grows (k a)) -> starts_with e (bind m k) w.
Proof.
  intros [l Hl] Hk. unfold starts_with, bind.
  destruct (m w) as [[a|err] w1]; simpl in *; [|eauto].
  destruct (Hk a w1) as [l2 Hl2]. exists (l ++ l2).
  rewrite Hl2, Hl, <- app_assoc. reflexivity.
Qed.

Lemma reconnect_starts_with_connect (drv : driver) (w : world) :
  _db (self w) = None -> starts_with EConnect (reconnect drv) w.
Proof.
  intros Hdb. unfold reconnect.
  unfold starts_with. unfold bind at 1. rewrite close_run, Hdb.
  unfold bind at 1. unfold get_trace at 1.
  apply (starts_with_bind EConnect (call_unit EConnect (drv_connect drv))).
  - unfold starts_with, call_unit, bind, get_trace, emit, ret, raise. simpl.
    destruct (drv_connect drv (trace w)); exists []; reflexivity.
  - grows_tac.
Qed.

Lemma cursor_starts_with_connect (drv : driver) (w : world) :
  _db (self w) = None -> starts_with EConnect (_cursor drv) w.
Proof.
  intros Hdb. unfold _cursor. apply starts_with_bind; [|grows_tac].
  unfold _ensure_connected, starts_with. unfold bind at 1, get_self at 1.
  rewrite Hdb. now apply reconnect_starts_with_connect.
Qed.

Lemma keeps_self_refl (w : world) : keeps_self w w.
Proof. reflexivity. Qed.

Lemma keeps_self_trans (w1 w2 w3 : world) :
  keeps_self w1 w2 -> keeps_self w2 w3 -> keeps_self w1 w3.
Proof. unfold keeps_self. congruence. Qed.

Lemma keeps_self_emit (e : event) : respects keeps_self (emit e).
Proof. intros w. reflexivity. Qed.

#[local] Hint Resolve keeps_self_emit : respects.

Ltac keeps_self_tac := respects_with keeps_self_refl keeps_self_trans.

Lemma keeps_self_register (l : list regtype) :
  respects keeps_self
    (fold_right (fun t k => emit (ERegisterType (rt_name t)) ;;; k) (ret tt) l).
Proof. induction l as [|t l IH]; simpl; keeps_self_tac. Qed.

#[local] Hint Resolve keeps_self_register : respects.

Lemma reconnect_connects (drv : driver) (w : world) :
  _db (self w) = None -> drv_connect drv (trace w) = None ->
  _db (self (snd (reconnect drv w))) = Some (length (trace w)).
Proof.
  intros Hdb Hok. unfold reconnect. unfold bind at 1. rewrite close_run, Hdb.
  unfold bind at 1, get_trace at 1.
  unfold bind at 1. unfold call_unit, bind at 1, get_trace at 1.
  unfold bind at 1, emit at 1. rewrite Hok. unfold ret at 1.
  unfold bind at 1, get_self at 1. simpl self.
  unfold bind at 1, put_self at 1. simpl.
  match goal with
  | |- _db (self (snd (?m ?w1))) = _ =>
      assert (H : respects keeps_self m) by keeps_self_tac;
      rewrite (H w1)
  end.
  reflexivity.
Qed.

Lemma on_operational_error_run (fmt : string) (e : exn) (w : world) :
  on_operational_error fmt e w =
  (Raise e,
   {| self := set_db None (self w); cursors := cursors w;
      trace := trace w ++ ELogError fmt [host (self w); exn_str e]
                 :: match _db (self w) with Some _ => [EDbClose] | None => [] end |}).
Proof.
  unfold on_operational_error, bind, get_self, log_error, emit. rewrite close_run. simpl.
  destruct (self w) as [h d lg tz db rt sp cp]; simpl.
  destruct db; unfold raise; simpl; rewrite <- ?app_assoc; reflexivity.
Qed.

Lemma call_run {A : Type} (e : event) (answer : list event -> outcome A) (w : world) :
  call e answer w =
  (answer (trace w), {| self := self w; cursors := cursors w; trace := trace w ++ [e] |}).
Proof.
  unfold call, bind, get_trace, emit, ret, raise. simpl.
  destruct (answer (trace w)); reflexivity.
Qed.

Lemma bind_get_self {A : Type} (k : Connection -> M A) (w : world) :
  bind get_self k w = k (self w) w.
Proof. reflexivity. Qed.

(** *** Calls that send no statement *)

Lemma statements_app (a b : list event) :
  statements (a ++ b) = statements a ++ statements b.
Proof.
  induction a as [|e a IH]; simpl; [reflexivity|].
  destruct (statement_of e); simpl; now rewrite IH.
Qed.

Lemma quiet_refl (w : world) : quiet w w.
Proof. repeat split. Qed.

Lemma quiet_trans (w1 w2 w3 : world) : quiet w1 w2 -> quiet w2 w3 -> quiet w1 w3.
Proof. unfold quiet. intros (A1 & B1 & C1) (A2 & B2 & C2). repeat split; congruence. Qed.

Lemma silent_refl (w : world) : silent w w.
Proof. repeat split. Qed.

Lemma silent_trans (w1 w2 w3 : world) : silent w1 w2 -> silent w2 w3 -> silent w1 w3.
Proof. unfold silent. intros (A1 & B1) (A2 & B2). split; congruence. Qed.

Lemma quiet_silent {A : Type} (m : M A) : respects quiet m -> respects silent m.
Proof. intros H w. destruct (H w) as (H1 & H2 & _). split; assumption. Qed.

Lemma quiet_emit (e : event) : statement_of e = None -> respects quiet (emit e).
Proof.
  intros He w. unfold quiet. simpl. rewrite statements_app. simpl. rewrite He.
  rewrite app_nil_r. repeat split.
Qed.

Lemma silent_emit (e : event) : statement_of e = None -> respects silent (emit e).
Proof. intros He. apply quiet_silent. now apply quiet_emit. Qed.

Lemma silent_put_cursor (c : nat) (st : cursor_state) : respects silent (put_cursor c st).
Proof. intros w. split; reflexivity. Qed.

Lemma silent_new_cursor : respects silent new_cursor.
Proof. intros w. split; reflexivity. Qed.

#[local] Hint Extern 1 (respects quiet (emit _)) => apply quiet_emit; reflexivity : respects.
#[local] Hint Extern 1 (respects silent (emit _)) => apply silent_emit; reflexivity : respects.
#[local] Hint Resolve silent_put_cursor silent_new_cursor : respects.

Ltac quiet_tac := respects_with quiet_refl quiet_trans.
Ltac silent_tac := respects_with silent_refl silent_trans.

Lemma quiet_register (l : list regtype) :
  respects quiet (fold_right (fun t k => emit (ERegisterType (rt_name t)) ;;; k) (ret tt) l).
Proof. induction l as [|t l IH]; simpl; quiet_tac. Qed.

#[local] Hint Resolve quiet_register : respects.

Lemma quiet_close : respects quiet close.
Proof.
  intros w. rewrite close_run. destruct (_db (self w)); simpl; [|apply quiet_refl].
  unfold quiet. simpl. rewrite statements_app, app_nil_r. repeat split.
Qed.

#[local] Hint Resolve quiet_close : respects.

(** Storing the session handle changes no session setting. *)
Lemma quiet_set_db {A : Type} (d : option nat) (k : Connection -> M A) :
  (forall c, respects quiet (k c)) ->
  respects quiet (let! c := get_self in put_self (set_db d c) ;;; k c).
Proof.
  intros Hk w. unfold bind at 1, get_self at 1. unfold bind at 1, put_self at 1.
  eapply quiet_trans; [|apply Hk]. repeat split.
Qed.

Lemma quiet_reconnect (drv : driver) : respects quiet (reconnect drv).
Proof.
  unfold reconnect.
  apply (respects_bind _ quiet_refl quiet_trans); [apply quiet_close|]. intros _.
  apply (respects_bind _ quiet_refl quiet_trans); [quiet_tac|]. intros tr.
  apply (respects_bind _ quiet_refl quiet_trans); [quiet_tac|]. intros _.
  apply quiet_set_db. intros c. quiet_tac.
Qed.

Lemma quiet_ensure_connected (drv : driver) : respects quiet (_ensure_connected drv).
Proof.
  unfold _ensure_connected.
  apply (respects_bind _ quiet_refl quiet_trans); [quiet_tac|]. intros c.
  destruct (_db c); [quiet_tac | apply quiet_reconnect].
Qed.

Lemma silent_cursor (drv : driver) : respects silent (_cursor drv).
Proof.
  unfold _cursor.
  apply (respects_bind _ silent_refl silent_trans);
    [apply quiet_silent, quiet_ensure_connected|].
  silent_tac.
Qed.

Lemma silent_cursor_close (c : nat) : respects silent (cursor_close c).
Proof. unfold cursor_close. silent_tac. Qed.

#[local] Hint Resolve silent_cursor silent_cursor_close : respects.

(** *** What a successful [_execute] leaves behind *)

Lemma execute_try_returns (drv : driver) (c : nat) (q : string) (ps : list value)
    (kw : kwargs_t) (w w2 : world) :
  _execute_try drv c q ps kw w = (Ret tt, w2) ->
  exists r tr,
    let stmt := fst (rewrite (fst (_set_search_path (self w) q)) ps kw) in
    let ps' := snd (rewrite (fst (_set_search_path (self w) q)) ps kw) in
    drv_execute drv tr stmt (Some ps') = Ret r
    /\ trace w2 = tr ++ [ECursorExecute c stmt (Some ps')]
    /\ cursors w2
       = <[c := {| cur_closed := cur_closed (default fresh_cursor (cursors w !! c));
                   cur_description := res_description r;
                   cur_rows := res_rows r;
                   cur_rowcount := res_rowcount r |}]> (cursors w).
Proof.
  unfold _execute_try, set_search_path_m, cursor_mogrify, cursor_execute, call,
    log_info.
  unfold bind, get_self, put_self, get_trace, emit, ret, raise, get_cursor, put_cursor.
  destruct (_set_search_path (self w) q) as [q1 c1]. simpl.
  destruct (rewrite q1 ps kw) as [q2 ps2]. simpl.
  destruct (logging c1); simpl.
  - destruct (drv_mogrify drv (trace w) q2 ps2) as [text|e]; simpl; [|discriminate].
    destruct (drv_execute drv _ q2 (Some ps2)) as [r|e] eqn:Er; simpl; [|discriminate].
    intros [= <-]. exists r. eexists. split; [exact Er|]. split; reflexivity.
  - destruct (drv_execute drv _ q2 (Some ps2)) as [r|e] eqn:Er; simpl; [|discriminate].
    intros [= <-]. exists r. eexists. split; [exact Er|]. split; reflexivity.
Qed.

Lemma execute_returns (drv : driver) (c : nat) (q : string) (ps : list value)
    (kw : kwargs_t) (w w2 : world) :
  _execute drv c q ps kw w = (Ret tt, w2) ->
  _execute_try drv c q ps kw w = (Ret tt, w2).
Proof.
  unfold _execute, try_except.
  destruct (_execute_try drv c q ps kw w) as [[[]|e] w1]; [auto|].
  destruct (is_OperationalError e); [|discriminate].
  rewrite on_operational_error_run. discriminate.
Qed.

Lemma cursor_returns (drv : driver) (w w1 : world) (c : nat) :
  _cursor drv w = (Ret c, w1) ->
  c = length (cursors w) /\ cursors w1 = cursors w ++ [fresh_cursor].
Proof.
  unfold _cursor. unfold bind at 1.
  pose proof (quiet_ensure_connected drv w) as (_ & _ & Hc).
  destruct (_ensure_connected drv w) as [[[]|e] w0]; simpl in Hc; [|discriminate].
  unfold bind, get_trace, new_cursor, emit, ret, raise.
  destruct (drv_cursor drv (trace w0)); [discriminate|]. simpl.
  intros [= <- <-]. simpl. rewrite Hc. split; reflexivity.
Qed.

(** ** One prefixed statement per call (C1) *)

Lemma execute_try_sends (drv : driver) (c : nat) (q : string) (ps : list value)
    (kw : kwargs_t) (w : world) :
  one_statement (built_statement (self w) q ps kw) (_execute_try drv c q ps kw) w.
Proof.
  unfold one_statement, built_statement. rewrite <- set_search_path_prefix.
  unfold _execute_try, set_search_path_m, cursor_mogrify, cursor_execute, call,
    log_info.
  unfold bind, get_self, put_self, get_trace, emit, ret, raise, get_cursor, put_cursor.
  destruct (_set_search_path (self w) q) as [q1 c1]. simpl.
  destruct (rewrite q1 ps kw) as [q2 ps2]. simpl.
  destruct (logging c1); simpl.
  - destruct (drv_mogrify drv (trace w) q2 ps2) as [text|e]; simpl.
    + destruct (drv_execute drv _ q2 (Some ps2)) as [r|e]; simpl;
        rewrite ?statements_app; simpl; rewrite ?app_nil_r; auto.
    + rewrite ?statements_app; simpl; rewrite ?app_nil_r; auto.
  - destruct (drv_execute drv _ q2 (Some ps2)) as [r|e]; simpl;
      rewrite ?statements_app; simpl; auto.
Qed.

Lemma on_operational_error_statements (fmt : string) (e : exn) (w : world) :
  statements (trace (snd (on_operational_error fmt e w))) = statements (trace w).
Proof.
  rewrite on_operational_error_run. simpl. rewrite statements_app. simpl.
  destruct (_db (self w)); simpl; now rewrite app_nil_r.
Qed.

Lemma execute_sends (drv : driver) (c : nat) (q : string) (ps : list value)
    (kw : kwargs_t) (w : world) :
  one_statement (built_statement (self w) q ps kw) (_execute drv c q ps kw) w.
Proof.
  pose proof (execute_try_sends drv c q ps kw w) as H.
  unfold one_statement in *. unfold _execute, try_except.
  destruct (_execute_try drv c q ps kw w) as [[[]|e] w1]; simpl in *; [exact H|].
  destruct (is_OperationalError e); simpl; [|exact H].
  rewrite on_operational_error_statements, on_operational_error_run. simpl. exact H.
Qed.

Lemma executemany_sends (drv : driver) (c : nat) (q : string) (ps : list value)
    (w : world) :
  one_statement (timezone_prefix (self w) +:+ schema_prefix (self w) q +:+ q)
                (_executemany drv c q ps) w.
Proof.
  assert (H : one_statement (timezone_prefix (self w) +:+ schema_prefix (self w) q +:+ q)
                (_executemany_try drv c q ps) w).
  { unfold one_statement. rewrite <- set_search_path_prefix.
    unfold _executemany_try, set_search_path_m, cursor_mogrify, cursor_executemany,
      call, log_info.
    unfold bind, get_self, put_self, get_trace, emit, ret, raise, get_cursor, put_cursor.
    destruct (_set_search_path (self w) q) as [q1 c1]. simpl.
    destruct (logging c1); simpl.
    - destruct (drv_mogrify drv (trace w) q1 ps) as [text|e]; simpl.
      + destruct (drv_executemany drv _ q1 ps) as [r|e]; simpl;
          rewrite ?statements_app; simpl; rewrite ?app_nil_r; auto.
      + rewrite ?statements_app; simpl; rewrite ?app_nil_r; auto.
    - destruct (drv_executemany drv _ q1 ps) as [r|e]; simpl;
        rewrite ?statements_app; simpl; auto. }
  unfold one_statement in *. unfold _executemany, try_except.
  destruct (_executemany_try drv c q ps w) as [[[]|e] w1]; simpl in *; [exact H|].
  destruct (is_OperationalError e); simpl; [|exact H].
  rewrite on_operational_error_statements, on_operational_error_run. simpl. exact H.
Qed.

(** A silent step before, a silent continuation after. *)
Lemma one_statement_bind_silent {A B : Type} (stmt : string) (m : M A) (k : A -> M B)
    (w : world) :
  one_statement stmt m w -> (forall a, respects silent (k a)) ->
  one_statement stmt (bind m k) w.
Proof.
  unfold one_statement, bind. intros Hm Hk.
  destruct (m w) as [[a|e] w1]; simpl in *; [|exact Hm].
  destruct (Hk a w1) as [Hs _]. rewrite Hs.
  destruct (fst (k a w1)); auto.
Qed.

Lemma one_statement_after_silent {A B : Type} (stmt : A -> world -> string)
    (stmt0 : string) (m : M A) (k : A -> M B) (w : world) :
  respects silent m ->
  (forall a w1, session (self w1) = session (self w) -> stmt a w1 = stmt0) ->
  (forall a w1, one_statement (stmt a w1) (k a) w1) ->
  one_statement stmt0 (bind m k) w.
Proof.
  unfold one_statement, bind. intros Hm Hst Hk.
  destruct (Hm w) as [Hs Hses].
  destruct (m w) as [[a|e] w1]; simpl in *; [|auto].
  specialize (Hk a w1). rewrite (Hst a w1 Hses) in Hk. rewrite <- Hs. exact Hk.
Qed.

Lemma one_statement_try_except {A : Type} (stmt : string) (body : M A)
    (catches : exn -> bool) (cleanup : exn -> M unit) (w : world) :
  one_statement stmt body w -> (forall e, respects silent (cleanup e)) ->
  one_statement stmt (try_except body catches (fun e => cleanup e ;;; raise e)) w.
Proof.
  unfold one_statement, try_except. intros Hb Hc.
  destruct (body w) as [[a|e] w1]; simpl in *; [exact Hb|].
  destruct (catches e); simpl; [|exact Hb].
  unfold bind. destruct (Hc e w1) as [Hs _].
  destruct (cleanup e w1) as [[[]|e'] w2]; simpl in *; rewrite Hs; exact Hb.
Qed.

Lemma one_statement_try_finally {A : Type} (stmt : string) (body : M A)
    (final : M unit) (w : world) :
  one_statement stmt body w -> respects silent final ->
  one_statement stmt (try_finally body final) w.
Proof.
  unfold one_statement, try_finally. intros Hb Hf.
  destruct (body w) as [r w1]; simpl in *. destruct (Hf w1) as [Hs _].
  destruct (final w1) as [[[]|e'] w2]; simpl in *; rewrite Hs;
    destruct r; auto.
Qed.

Lemma query_sends (drv : driver) (q : string) (ps : list value) (kw : kwargs_t)
    (w : world) :
  one_statement (built_statement (self w) q ps kw) (query drv q ps kw) w.
Proof.
  unfold query.
  apply (one_statement_after_silent
           (fun (_ : nat) w1 => built_statement (self w1) q ps kw)).
  - apply silent_cursor.
  - intros _ w1 Hs. now apply built_statement_session.
  - intros c w1. apply one_statement_try_except; [|silent_tac].
    apply one_statement_bind_silent; [apply execute_sends | silent_tac].
Qed.

Lemma cursor_execute_sends (drv : driver) (c : nat) (s : string)
    (ps : option (list value)) (w : world) :
  one_statement s (cursor_execute drv c s ps) w.
Proof.
  unfold one_statement, cursor_execute, bind. rewrite call_run.
  destruct (drv_execute drv (trace w) s ps); cbn [fst snd trace get_cursor put_cursor];
    rewrite statements_app; cbn [statements statement_of]; auto.
Qed.

Lemma file_execute_sends (drv : driver) (sql : string) (w : world) :
  one_statement (file_prefix (self w) +:+ sql) (file_execute drv sql) w.
Proof.
  unfold file_execute.
  apply (one_statement_after_silent
           (fun (_ : nat) w1 => file_prefix (self w1) +:+ sql)).
  - apply silent_cursor.
  - intros _ w1 Hs. unfold file_prefix, default_prefix.
    unfold session in Hs. injection Hs as _ _ _ Hsp Hcp. now rewrite Hsp, Hcp.
  - intros c w1. unfold file_prefix, default_prefix, one_statement.
    rewrite !bind_get_self.
    destruct (truthy (_change_path (self w1))).
    + exact (cursor_execute_sends drv c
               (search_path_stmt (_change_path (self w1)) +:+ sql) None
               {| self := set_change_path None (self w1); cursors := cursors w1;
                  trace := trace w1 |}).
    + destruct (truthy (_search_path (self w1))); apply cursor_execute_sends.
Qed.

Lemma file_sends (drv : driver) (path : string) (w : world) :
  match drv_read_script drv (trace w) path with
  | Ret sql => one_statement (file_prefix (self w) +:+ sql) (file drv path) w
  | Raise _ => statements (trace (snd (file drv path w))) = statements (trace w)
  end.
Proof.
  unfold file, one_statement, bind. rewrite call_run.
  destruct (drv_read_script drv (trace w) path) as [sql|e];
    [|cbn [snd trace]; now rewrite statements_app, app_nil_r].
  pose proof (file_execute_sends drv sql
                {| self := self w; cursors := cursors w;
                   trace := trace w ++ [EOpenFile path] |}) as H.
  unfold one_statement in H. cbn [self trace] in H.
  rewrite statements_app in H. cbn [statements statement_of] in H.
  rewrite app_nil_r in H. exact H.
Qed.

(** Where the prefix is applied: [query], [execute], [get] and
    [execute_rowcount] send the template with the timezone and search-path
    directives concatenated in front as one statement, in one round trip;
    so does [executemany]; [file] sends its script in one round trip with
    the search-path directive only. *)
Theorem session_prefix_in_one_statement (drv : driver) (q path : string)
    (ps : list value) (kw : kwargs_t) (w : world) :
  one_statement (built_statement (self w) q ps kw) (query drv q ps kw) w
  /\ one_statement (built_statement (self w) q ps []) (execute drv q ps []) w
  /\ one_statement (built_statement (self w) q ps kw) (get drv q ps kw) w
  /\ one_statement (built_statement (self w) q ps kw) (execute_rowcount drv q ps kw) w
  /\ one_statement (timezone_prefix (self w) +:+ schema_prefix (self w) q +:+ q)
                   (executemany drv q ps) w
  /\ match drv_read_script drv (trace w) path with
     | Ret sql => one_statement (file_prefix (self w) +:+ sql) (file drv path) w
     | Raise _ => statements (trace (snd (file drv path w))) = statements (trace w)
     end.
Proof.
  split; [apply query_sends|]. split; [apply query_sends|]. split; [|split; [|split]].
  - unfold get. apply one_statement_bind_silent; [apply query_sends|].
    intros [[|row [|row2 rows]]|]; silent_tac.
  - unfold execute_rowcount.
    apply (one_statement_after_silent
             (fun (_ : nat) w1 => built_statement (self w1) q ps kw)).
    + apply silent_cursor.
    + intros _ w1 Hs. now apply built_statement_session.
    + intros c w1. apply one_statement_try_finally; [|silent_tac].
      apply one_statement_bind_silent; [apply execute_sends | silent_tac].
  - unfold executemany.
    apply (one_statement_after_silent
             (fun (_ : nat) w1 =>
                timezone_prefix (self w1) +:+ schema_prefix (self w1) q +:+ q)).
    + apply silent_cursor.
    + intros _ w1 Hs. rewrite <- !set_search_path_prefix.
      now destruct (set_search_path_session (self w1) (self w) q Hs) as [-> _].
    + intros c w1. apply one_statement_try_except; [|silent_tac].
      apply one_statement_bind_silent; [apply executemany_sends | silent_tac].
  - apply file_sends.
Qed.

Example session_prefix_example :
  built_statement (conn (Some "+00") (Some "public") None (Some 0))
                  "UPDATE t SET __data__ WHERE id=%s" [VInt 5] [("name", VStr "a")]
  = "set timezone = '+00';set search_path = public;UPDATE t SET name=%s WHERE id=%s".
Proof. reflexivity. Qed.

(** C1 on the code: on a connection with a timezone and a default schema
    [_set_search_path] puts both directives in front of [select 1], and
    that is what [execute] sends; the text that [mogrify] hands to the
    driver carries no directive at all, against its docstring (the string
    is exactly the one that [execute] would send), and the statement sent
    by [file] carries the search path but not the timezone. *)
Lemma mogrify_and_file_skip_the_prefix :
  let w := world_of (conn (Some "+00") (Some "public") None (Some 0)) in
  fst (_set_search_path (self w) "select 1")
    = "set timezone = '+00';set search_path = public;select 1"
  /\ trace (snd (mogrify (driver_ok one_row) "select 1" [] w))
     = [ECursor 0; ECursorMogrify 0 "select 1" []]
  /\ trace (snd (file (driver_ok one_row) "a.sql" w))
     = [EOpenFile "a.sql"; ECursor 0;
        ECursorExecute 0 "set search_path = public;select 1" None].
Proof. repeat split; vm_compute; reflexivity. Qed.

(** ** [get] (C6) *)

(** C6: [get] returns [None] when [query] yields no row (or no result
    set), the row when it yields exactly one, and raises the
    multiple-rows error when it yields two or more; an error of [query]
    passes through. *)
Theorem get_zero_one_many (drv : driver) (q : string) (ps : list value)
    (kw : kwargs_t) (w : world) :
  get drv q ps kw w =
  match query drv q ps kw w with
  | (Ret None, w') => (Ret None, w')
  | (Ret (Some []), w') => (Ret None, w')
  | (Ret (Some [row]), w') => (Ret (Some row), w')
  | (Ret (Some (_ :: _ :: _)), w') =>
      (Raise (PyException "Multiple rows returned for Database.get() query"), w')
  | (Raise e, w') => (Raise e, w')
  end.
Proof.
  unfold get, bind.
  destruct (query drv q ps kw w) as [[[[|row [|row2 rows]]|]|e] w']; reflexivity.
Qed.

Example get_fixture_0 :
  fst (get (driver_ok (table [])) "select * from t" [] [] connected_world) = Ret None.
Proof. vm_compute. reflexivity. Qed.

Example get_fixture_1 :
  fst (get (driver_ok (table [[VInt 1; VStr "a"]])) "select * from t" [] [] connected_world)
  = Ret (Some (Row [("id", VInt 1); ("name", VStr "a")])).
Proof. vm_compute. reflexivity. Qed.

Example get_fixture_2 :
  fst (get (driver_ok (table [[VInt 1; VStr "a"]; [VInt 2; VStr "b"]]))
           "select * from t" [] [] connected_world)
  = Raise (PyException "Multiple rows returned for Database.get() query").
Proof. vm_compute. reflexivity. Qed.

Example row_lookup :
  Row [("id", VInt 1); ("name", VStr "a")] !! "name" = Some (VStr "a")
  /\ Row [("id", VInt 1); ("name", VStr "a")] !! "missing" = None
  /\ Row [("x", VInt 1); ("x", VInt 2)] !! "x" = Some (VInt 2).
Proof. repeat split; vm_compute; reflexivity. Qed.

(** ** The result of [query] (C7) *)

(** C7, as the code has it: after a successful execution [query] returns
    the rows zipped with the column names when the description is a
    non-empty sequence, and [None] when there is no description or the
    description is empty. *)
Theorem query_rows_of_description (drv : driver) (q : string) (ps : list value)
    (kw : kwargs_t) (w w1 w2 : world) (c : nat) :
  _cursor drv w = (Ret c, w1) ->
  _execute drv c q ps kw w1 = (Ret tt, w2) ->
  exists r tr stmt ps',
    drv_execute drv tr stmt (Some ps') = Ret r
    /\ trace w2 = tr ++ [ECursorExecute c stmt (Some ps')]
    /\ query drv q ps kw w =
       (Ret (match res_description r with
             | Some (name :: names) =>
                 Some (map (fun row => Row (zip (name :: names) row)) (res_rows r))
             | Some [] => None
             | None => None
             end), w2).
Proof.
  intros Hc He.
  destruct (cursor_returns _ _ _ _ Hc) as [Hlen Hcur].
  destruct (execute_try_returns _ _ _ _ _ _ _ (execute_returns _ _ _ _ _ _ _ He))
    as (r & tr & Hr & Htr & Hst).
  exists r, tr. do 2 eexists. split; [exact Hr|]. split; [exact Htr|].
  unfold query. unfold bind at 1. rewrite Hc.
  unfold try_except. unfold bind at 1. rewrite He.
  unfold bind, get_cursor. rewrite Hst.
  rewrite list_lookup_insert_eq by (rewrite Hcur, length_app; simpl; lia).
  simpl. destruct (res_description r) as [[|name names]|]; reflexivity.
Qed.

Lemma query_rows_of_description_witness :
  fst (query (driver_ok one_row) "select 1" [] [] connected_world)
  = Ret (Some [Row [("id", VInt 1)]]).
Proof.
  destruct (query_rows_of_description (driver_ok one_row) "select 1" [] []
              connected_world
              (snd (_cursor (driver_ok one_row) connected_world))
              (snd (_execute (driver_ok one_row) 0 "select 1" [] []
                      (snd (_cursor (driver_ok one_row) connected_world))))
              0)
    as (r & tr & stmt & ps' & Hr & _ & Hq);
    [vm_compute; reflexivity | vm_compute; reflexivity |].
  rewrite Hq. simpl in Hr. injection Hr as <-. reflexivity.
Defined.

(** C7, as stated, fails for an empty description: the driver reports a
    result set, yet [query] returns [None] and not the list of (empty)
    rows. *)
Lemma query_none_on_empty_description :
  res_description no_columns = Some []
  /\ fst (query (driver_ok no_columns) "select" [] [] connected_world) = Ret None
  /\ fst (query (driver_ok no_columns) "select" [] [] connected_world)
     <> Ret (Some (map (fun row => Row (zip [] row)) (res_rows no_columns))).
Proof. repeat split; try (vm_compute; reflexivity). vm_compute. discriminate. Qed.

(** ** Operational failures and the lazy reconnect (C8) *)

(** What [_execute] does of it: when its [try] block raises an operational
    error, [_execute] logs it with the host, closes the session, leaves the
    connection disconnected and raises the same error; the next public
    call starts by connecting again, through [_ensure_connected], and is
    connected again as soon as the driver accepts the connection. *)
Theorem operational_failure_then_reconnect
    (drv : driver) (cursor : nat) (q : string) (ps : list value) (kw : kwargs_t)
    (w w1 : world) (msg : string) :
  _execute_try drv cursor q ps kw w = (Raise (OperationalError msg), w1) ->
  let w' := snd (_execute drv cursor q ps kw w) in
  fst (_execute drv cursor q ps kw w) = Raise (OperationalError msg)
  /\ trace w' = trace w1
                ++ ELogError "Error connecting to PostgreSQL on %s, %s" [host (self w1); msg]
                :: match _db (self w1) with Some _ => [EDbClose] | None => [] end
  /\ _db (self w') = None
  /\ _ensure_connected drv w' = reconnect drv w'
  /\ (forall q2 ps2 kw2,
        starts_with EConnect (query drv q2 ps2 kw2) w'
        /\ starts_with EConnect (execute drv q2 ps2 []) w'
        /\ starts_with EConnect (get drv q2 ps2 kw2) w'
        /\ starts_with EConnect (executemany drv q2 ps2) w'
        /\ starts_with EConnect (execute_rowcount drv q2 ps2 kw2) w'
        /\ starts_with EConnect (mogrify drv q2 ps2) w')
  /\ (drv_connect drv (trace w') = None ->
      _db (self (snd (_ensure_connected drv w'))) = Some (length (trace w'))).
Proof.
  intros Htry w'.
  assert (Hrun : _execute drv cursor q ps kw w
                 = on_operational_error "Error connecting to PostgreSQL on %s, %s"
                     (OperationalError msg) w1).
  { unfold _execute, try_except. rewrite Htry. reflexivity. }
  subst w'. rewrite Hrun, on_operational_error_run. simpl fst. simpl snd.
  set (w' := {| self := _; cursors := _; trace := _ |}).
  assert (Hdb : _db (self w') = None) by reflexivity.
  assert (Hens : _ensure_connected drv w' = reconnect drv w').
  { unfold _ensure_connected. unfold bind at 1, get_self at 1. rewrite Hdb. reflexivity. }
  split; [reflexivity|]. split; [reflexivity|]. split; [exact Hdb|].
  split; [exact Hens|]. split.
  - intros q2 ps2 kw2.
    pose proof (cursor_starts_with_connect drv w' Hdb) as Hc.
    repeat split.
    + unfold query. apply starts_with_bind; [exact Hc | grows_tac].
    + unfold execute, query. apply starts_with_bind; [exact Hc | grows_tac].
    + unfold get, query. apply starts_with_bind; [|grows_tac].
      apply starts_with_bind; [exact Hc | grows_tac].
    + unfold executemany. apply starts_with_bind; [exact Hc | grows_tac].
    + unfold execute_rowcount. apply starts_with_bind; [exact Hc | grows_tac].
    + unfold mogrify, cursor_mogrify. apply starts_with_bind; [exact Hc | grows_tac].
  - intros Hok. rewrite Hens. now apply reconnect_connects.
Qed.

Lemma operational_failure_then_reconnect_witness :
  let drv := driver_fails_once one_row in
  let w' := snd (_execute drv 0 "select 1" [] [] connected_world) in
  fst (_execute drv 0 "select 1" [] [] connected_world)
    = Raise (OperationalError "server closed the connection unexpectedly")
  /\ _db (self w') = None
  /\ fst (query drv "select 1" [] [] w') = Ret (Some [Row [("id", VInt 1)]]).
Proof.
  destruct (operational_failure_then_reconnect (driver_fails_once one_row) 0
              "select 1" [] [] connected_world
              {| self := self connected_world; cursors := [];
                 trace := [ECursorExecute 0 "set timezone = '+00';select 1" (Some [])] |}
              "server closed the connection unexpectedly")
    as (H1 & _ & H3 & _); [vm_compute; reflexivity|].
  split; [exact H1|]. split; [exact H3|]. vm_compute. reflexivity.
Defined.

(** C8 on the code: [file] calls [cursor.execute] outside any [except]
    clause.  When the server has dropped the session, the operational
    error of [file] reaches the caller, but nothing is logged and the
    session is not closed: the connection still holds the dead session,
    the next call does not reconnect, and it fails although the server
    accepts connections again.  The same failure inside [query] or
    [executemany] is logged with the host, closes the session, and the
    next call reconnects and succeeds. *)
Lemma file_keeps_the_lost_session :
  let drv := driver_session_lost one_row in
  let lost := OperationalError "server closed the connection unexpectedly" in
  let logged fmt :=
    ELogError fmt ["127.0.0.1"; "server closed the connection unexpectedly"] in
  let after_file := snd (file drv "a.sql" connected_world) in
  let after_query := snd (query drv "select 1" [] [] connected_world) in
  let after_many := snd (executemany drv "select 1" [] connected_world) in
  (fst (file drv "a.sql" connected_world) = Raise lost
   /\ trace after_file = [EOpenFile "a.sql"; ECursor 0; ECursorExecute 0 "select 1" None]
   /\ _db (self after_file) = Some 0
   /\ fst (query drv "select 1" [] [] after_file) = Raise lost)
  /\ (fst (query drv "select 1" [] [] connected_world) = Raise lost
      /\ trace after_query
         = [ECursor 0; ECursorExecute 0 "set timezone = '+00';select 1" (Some []);
            logged "Error connecting to PostgreSQL on %s, %s"; EDbClose; ECursorClose 0]
      /\ _db (self after_query) = None
      /\ fst (query drv "select 1" [] [] after_query) = Ret (Some [Row [("id", VInt 1)]]))
  /\ (fst (executemany drv "select 1" [] connected_world) = Raise lost
      /\ trace after_many
         = [ECursor 0; ECursorExecuteMany 0 "set timezone = '+00';select 1" [];
            logged "Error connecting to PostgreSQL on %s, e"; EDbClose; ECursorClose 0]
      /\ _db (self after_many) = None
      /\ fst (query drv "select 1" [] [] after_many) = Ret (Some [Row [("id", VInt 1)]])).
Proof. repeat split; vm_compute; reflexivity. Qed.

(** An error of [_execute] reaches the caller of [query], after the cursor
    has been closed. *)
Lemma query_reraises (drv : driver) (q : string) (ps : list value) (kw : kwargs_t)
    (w w1 w2 : world) (c : nat) (e : exn) :
  _cursor drv w = (Ret c, w1) ->
  _execute drv c q ps kw w1 = (Raise e, w2) ->
  fst (query drv q ps kw w) = Raise e
  /\ self (snd (query drv q ps kw w)) = self w2
  /\ trace (snd (query drv q ps kw w)) = trace w2 ++ [ECursorClose c].
Proof.
  intros Hc He.
  assert (Hq : query drv q ps kw w = (cursor_close c ;;; raise e) w2).
  { unfold query. unfold bind at 1. rewrite Hc.
    unfold try_except. unfold bind at 1. rewrite He. reflexivity. }
  rewrite Hq. repeat split.
Qed.

(** [_executemany] handles an operational error as [_execute] does; its
    logging call has one format marker for its two arguments. *)
Lemma executemany_operational_failure (drv : driver) (cursor : nat) (q : string)
    (ps : list value) (w w1 : world) (msg : string) :
  _executemany_try drv cursor q ps w = (Raise (OperationalError msg), w1) ->
  let w' := snd (_executemany drv cursor q ps w) in
  fst (_executemany drv cursor q ps w) = Raise (OperationalError msg)
  /\ trace w' = trace w1
                ++ ELogError "Error connecting to PostgreSQL on %s, e" [host (self w1); msg]
                :: match _db (self w1) with Some _ => [EDbClose] | None => [] end
  /\ _db (self w') = None.
Proof.
  intros Htry w'. subst w'. unfold _executemany, try_except. rewrite Htry.
  cbn [is_OperationalError]. rewrite on_operational_error_run.
  repeat split.
Qed.

(** ** Releasing the cursor (C9) *)

(** C9 on the code: on a normal return [query], [mogrify] and
    [executemany] leave the cursor they obtained open; only
    [execute_rowcount] closes it. *)
Lemma cursor_left_open_on_return :
  let drv := driver_ok one_row in
  (fst (query drv "select 1" [] [] connected_world) = Ret (Some [Row [("id", VInt 1)]])
   /\ closed_flags (snd (query drv "select 1" [] [] connected_world)) = [false])
  /\ closed_flags (snd (mogrify drv "select 1" [] connected_world)) = [false]
  /\ closed_flags (snd (executemany drv "select 1" [] connected_world)) = [false]
  /\ closed_flags (snd (execute_rowcount drv "select 1" [] [] connected_world)) = [true].
Proof. repeat split; vm_compute; reflexivity. Qed.

(** Whenever [query] returns, the cursor it obtained is still open. *)
Lemma query_return_leaves_cursor_open (drv : driver) (q : string) (ps : list value)
    (kw : kwargs_t) (w w' : world) (rows : option (list (gmap string value))) :
  query drv q ps kw w = (Ret rows, w') ->
  exists st, cursors w' !! length (cursors w) = Some st /\ cur_closed st = false.
Proof.
  unfold query. unfold bind at 1.
  destruct (_cursor drv w) as [[c|e] w1] eqn:Hc; [|discriminate].
  destruct (cursor_returns _ _ _ _ Hc) as [-> Hcur].
  unfold try_except. unfold bind at 1.
  destruct (_execute drv (length (cursors w)) q ps kw w1) as [[[]|e] w2] eqn:He.
  - destruct (execute_try_returns _ _ _ _ _ _ _ (execute_returns _ _ _ _ _ _ _ He))
      as (r & tr & _ & _ & Hst).
    unfold bind, get_cursor.
    intros H.
    assert (Hw : w' = w2).
    { destruct (cur_description _) as [[|n ns]|]; injection H as _ <-; reflexivity. }
    subst w'. rewrite Hst. eexists. split.
    + apply list_lookup_insert_eq. rewrite Hcur, length_app. simpl. lia.
    + simpl. rewrite Hcur, list_lookup_middle by reflexivity. reflexivity.
  - unfold bind, cursor_close, emit, get_cursor, put_cursor, raise. simpl. discriminate.
Qed.


(** ** [execute] and [query] (C10) *)

(** What [execute] does: without keyword arguments it is [query]; with
    any keyword argument the call is refused with a [TypeError] and nothing
    is done. *)
Lemma execute_is_query_without_keywords (drv : driver) (q : string)
    (ps : list value) (kw : kwargs_t) (w : world) :
  execute drv q ps [] w = query drv q ps [] w
  /\ (kw <> [] -> exists msg, execute drv q ps kw w = (Raise (TypeError msg), w)).
Proof.
  split; [reflexivity|].
  intros Hkw. destruct kw as [|[k v] kw]; [contradiction|].
  eexists. reflexivity.
Qed.

(** C10 on the code: [execute], whose docstring calls it an alias for
    [query], does not forward keyword arguments as its siblings [get] and
    [execute_rowcount] do: with a keyword argument [query] runs the
    rewritten statement, [execute] raises before doing anything. *)
Lemma execute_refuses_keywords :
  let kw := [("name", VStr "a")] in
  fst (query (driver_ok no_result_set) "UPDATE t SET __data__" [] kw connected_world) = Ret None
  /\ fst (execute (driver_ok no_result_set) "UPDATE t SET __data__" [] kw connected_world)
     = Raise (TypeError "execute() got an unexpected keyword argument 'name'")
  /\ trace (snd (execute (driver_ok no_result_set) "UPDATE t SET __data__" [] kw connected_world)) = []
  /\ statements (trace (snd (query (driver_ok no_result_set) "UPDATE t SET __data__" [] kw connected_world)))
     = ["set timezone = '+00';UPDATE t SET name=%s"].
Proof. repeat split; vm_compute; reflexivity. Qed.

(** * Further properties of the module *)

(** ** [close] and [reconnect] *)

Lemma close_closed (w : world) : close w = (Ret tt, closed w).
Proof. apply close_run. Qed.

Lemma closed_db (w : world) : _db (self (closed w)) = None.
Proof. unfold closed. destruct (_db (self w)) eqn:E; [reflexivity | exact E]. Qed.

(** [close] leaves the connection disconnected, tells the driver only
    when there was a session, and does nothing when called again. *)
Theorem close_is_idempotent (w : world) :
  _db (self (snd (close w))) = None
  /\ trace (snd (close w))
     = trace w ++ match _db (self w) with Some _ => [EDbClose] | None => [] end
  /\ close (snd (close w)) = (Ret tt, snd (close w)).
Proof.
  rewrite close_closed. cbn [snd]. split; [apply closed_db|]. split.
  - unfold closed. destruct (_db (self w)); [reflexivity | now rewrite app_nil_r].
  - rewrite close_closed. f_equal. unfold closed at 1. now rewrite closed_db.
Qed.

Lemma register_run (l : list regtype) (w : world) :
  fold_right (fun t k => emit (ERegisterType (rt_name t)) ;;; k) (ret tt) l w
  = (Ret tt, {| self := self w; cursors := cursors w;
                trace := trace w ++ registrations l |}).
Proof.
  revert w. induction l as [|t l IH]; intros w; simpl.
  - unfold ret. rewrite app_nil_r. now destruct w.
  - unfold bind at 1, emit at 1. rewrite IH. simpl. now rewrite <- app_assoc.
Qed.

Lemma closed_fields (w : world) :
  cursors (closed w) = cursors w
  /\ _register_types (self (closed w)) = _register_types (self w)
  /\ forall d, set_db d (self (closed w)) = set_db d (self w).
Proof. unfold closed. destruct (_db (self w)); repeat split. Qed.

(** What [reconnect] does, in full. *)
Lemma reconnect_run (drv : driver) (w : world) :
  reconnect drv w =
  match drv_connect drv (trace (closed w)) with
  | Some e =>
      (Raise e, {| self := self (closed w); cursors := cursors w;
                   trace := trace (closed w) ++ [EConnect] |})
  | None =>
      let tr := trace (closed w)
                ++ EConnect :: ERegisterType "MONEY"
                   :: registrations (_register_types (self w)) in
      (match drv_register_hstore drv tr with
       | None => Ret tt
       | Some e => if is_ProgrammingError e then Ret tt else Raise e
       end,
       {| self := set_db (Some (length (trace (closed w)))) (self w);
          cursors := cursors w; trace := tr ++ [ERegisterHstore] |})
  end.
Proof.
  destruct (closed_fields w) as (Hc & Hr & Hd).
  unfold reconnect. unfold bind at 1. rewrite close_closed.
  unfold bind at 1, get_trace at 1.
  unfold bind at 1. unfold call_unit, bind at 1, get_trace at 1.
  unfold bind at 1, emit at 1.
  destruct (drv_connect drv (trace (closed w))) as [e|].
  - unfold raise. now rewrite Hc.
  - unfold ret at 1. unfold bind at 1, get_self at 1. cbn [self].
    unfold bind at 1, put_self at 1. cbn [self cursors trace].
    unfold bind at 1, emit at 1. cbn [self cursors trace].
    unfold bind at 1. rewrite register_run. cbn [self cursors trace _register_types set_db].
    rewrite Hr, Hc, Hd.
    unfold try_except, call_unit, bind, get_trace, emit, ret, raise.
    cbn [self cursors trace].
    rewrite <- !app_assoc. cbn [app].
    destruct (drv_register_hstore drv _) as [e|]; [|reflexivity].
    destruct (is_ProgrammingError e); reflexivity.
Qed.

(** A successful [reconnect] closes the old session first, connects,
    registers the MONEY cast and then every registered type in the order of
    registration, and last enables hstore; a [ProgrammingError] of that last
    step is swallowed. *)
Theorem reconnect_replays_types (drv : driver) (w : world) :
  drv_connect drv (trace (closed w)) = None ->
  (forall e, drv_register_hstore drv
               (trace (closed w) ++ EConnect :: ERegisterType "MONEY"
                  :: registrations (_register_types (self w))) = Some e ->
             is_ProgrammingError e = true) ->
  fst (reconnect drv w) = Ret tt
  /\ self (snd (reconnect drv w)) = set_db (Some (length (trace (closed w)))) (self w)
  /\ trace (snd (reconnect drv w))
     = trace w ++ match _db (self w) with Some _ => [EDbClose] | None => [] end
       ++ [EConnect; ERegisterType "MONEY"]
       ++ registrations (_register_types (self w)) ++ [ERegisterHstore].
Proof.
  intros Hc Hh. rewrite reconnect_run, Hc. cbv zeta. cbn [fst snd self trace].
  split; [|split; [reflexivity|]].
  - destruct (drv_register_hstore drv _) as [e|] eqn:E; [|reflexivity].
    now rewrite (Hh e eq_refl).
  - unfold closed. destruct (_db (self w)); cbn [trace app];
      rewrite <- ?app_assoc; reflexivity.
Qed.

Lemma reconnect_replays_types_witness :
  let t1 := {| rt_oids := [600%Z]; rt_name := "POINT"; rt_casting := 0 |} in
  let t2 := {| rt_oids := [3904%Z]; rt_name := "INT4RANGE"; rt_casting := 1 |} in
  let w := world_of (set_register_types [t1; t2] (conn (Some "+00") None None (Some 7))) in
  fst (reconnect (driver_hstore_error (ProgrammingError "no hstore")) w) = Ret tt
  /\ trace (snd (reconnect (driver_hstore_error (ProgrammingError "no hstore")) w))
     = [EDbClose; EConnect; ERegisterType "MONEY"; ERegisterType "POINT";
        ERegisterType "INT4RANGE"; ERegisterHstore].
Proof.
  intros t1 t2 w.
  destruct (reconnect_replays_types (driver_hstore_error (ProgrammingError "no hstore")) w)
    as (H1 & _ & H3).
  - reflexivity.
  - intros e [= <-]. reflexivity.
  - split; [exact H1 | exact H3].
Defined.

(** When the driver refuses the connection, [reconnect] raises its error
    with the old session closed, the connection disconnected and no type
    registered. *)
Theorem reconnect_connect_failure (drv : driver) (w : world) (e : exn) :
  drv_connect drv (trace (closed w)) = Some e ->
  fst (reconnect drv w) = Raise e
  /\ _db (self (snd (reconnect drv w))) = None
  /\ trace (snd (reconnect drv w))
     = trace w ++ match _db (self w) with Some _ => [EDbClose] | None => [] end
       ++ [EConnect].
Proof.
  intros Hc. rewrite reconnect_run, Hc. cbn [fst snd self trace].
  split; [reflexivity|]. split; [apply closed_db|].
  unfold closed. destruct (_db (self w)); cbn [trace app];
    rewrite <- ?app_assoc; reflexivity.
Qed.

Lemma reconnect_connect_failure_witness :
  fst (reconnect driver_down connected_world) = Raise (OperationalError "connection refused")
  /\ _db (self (snd (reconnect driver_down connected_world))) = None
  /\ trace (snd (reconnect driver_down connected_world)) = [EDbClose; EConnect].
Proof.
  apply (reconnect_connect_failure driver_down connected_world
           (OperationalError "connection refused")).
  reflexivity.
Defined.

(** When enabling hstore fails with anything but a [ProgrammingError],
    [reconnect] raises that error, yet the new session is kept: the
    connection is left connected. *)
Theorem reconnect_hstore_failure (drv : driver) (w : world) (e : exn) :
  drv_connect drv (trace (closed w)) = None ->
  drv_register_hstore drv
    (trace (closed w) ++ EConnect :: ERegisterType "MONEY"
       :: registrations (_register_types (self w))) = Some e ->
  is_ProgrammingError e = false ->
  fst (reconnect drv w) = Raise e
  /\ _db (self (snd (reconnect drv w))) = Some (length (trace (closed w))).
Proof.
  intros Hc Hh He. rewrite reconnect_run, Hc. cbv zeta. rewrite Hh, He.
  split; reflexivity.
Qed.

Lemma reconnect_hstore_failure_witness :
  fst (reconnect (driver_hstore_error (OperationalError "lost")) connected_world)
    = Raise (OperationalError "lost")
  /\ _db (self (snd (reconnect (driver_hstore_error (OperationalError "lost"))
                       connected_world))) = Some 1.
Proof.
  apply (reconnect_hstore_failure (driver_hstore_error (OperationalError "lost"))
           connected_world (OperationalError "lost"));
    reflexivity.
Defined.

(** Whatever the driver answers, [reconnect] changes nothing of the
    connection but its session handle: the registered types, the schema
    settings and the timezone are as before, and so are the cursors. *)
Theorem reconnect_changes_only_the_session (drv : driver) (w : world) :
  (exists d, self (snd (reconnect drv w)) = set_db d (self w))
  /\ cursors (snd (reconnect drv w)) = cursors w
  /\ _register_types (self (snd (reconnect drv w))) = _register_types (self w)
  /\ _register_types (self (snd (reconnect drv (snd (reconnect drv w)))))
     = _register_types (self w).
Proof.
  assert (H : forall w0, exists d,
             self (snd (reconnect drv w0)) = set_db d (self w0)
             /\ cursors (snd (reconnect drv w0)) = cursors w0).
  { intros w0. rewrite reconnect_run.
    destruct (drv_connect drv (trace (closed w0))); cbv zeta; cbn [snd self cursors].
    - exists None. split; [|reflexivity].
      unfold closed. destruct (_db (self w0)) eqn:E; [reflexivity|].
      destruct (self w0); simpl in *; now subst.
    - eexists. split; reflexivity. }
  destruct (H w) as (d & Hs & Hc).
  destruct (H (snd (reconnect drv w))) as (d2 & Hs2 & _).
  split; [now exists d|]. split; [exact Hc|].
  rewrite Hs2, Hs. split; reflexivity.
Qed.

(** ** [register_type] and [__init__] *)

Lemma registrations_snoc (l : list regtype) (t : regtype) :
  registrations (l ++ [t]) = registrations l ++ [ERegisterType (rt_name t)].
Proof. unfold registrations. now rewrite map_app. Qed.

(** [register_type] appends the type to the registry, registers it at
    once only when there is a session, and the next successful
    [reconnect] registers it after all the types registered before it. *)
Theorem register_type_is_replayed (drv : driver) (t : regtype) (w : world) :
  let w' := snd (register_type t w) in
  fst (register_type t w) = Ret tt
  /\ _register_types (self w') = _register_types (self w) ++ [t]
  /\ trace w' = trace w ++ match _db (self w) with
                           | Some _ => [ERegisterType (rt_name t)]
                           | None => []
                           end
  /\ (drv_connect drv (trace (closed w')) = None ->
      trace (snd (reconnect drv w'))
      = trace (closed w') ++ [EConnect; ERegisterType "MONEY"]
        ++ registrations (_register_types (self w))
        ++ [ERegisterType (rt_name t); ERegisterHstore]).
Proof.
  assert (Hrun : register_type t w
                 = (Ret tt,
                    {| self := set_register_types (_register_types (self w) ++ [t]) (self w);
                       cursors := cursors w;
                       trace := trace w ++ match _db (self w) with
                                           | Some _ => [ERegisterType (rt_name t)]
                                           | None => []
                                           end |})).
  { unfold register_type, bind, get_self, put_self, emit, ret. cbn [self cursors trace].
    destruct (_db (self w)); [reflexivity | now rewrite app_nil_r]. }
  cbv zeta. rewrite Hrun. cbn [fst snd self trace _register_types set_register_types].
  repeat split.
  intros Hc. rewrite reconnect_run, Hc. cbv zeta.
  cbn [snd self trace _register_types set_register_types].
  rewrite registrations_snoc, <- app_assoc. f_equal. cbn [app].
  now rewrite <- app_assoc.
Qed.

Lemma register_type_is_replayed_witness :
  let t1 := {| rt_oids := [600%Z]; rt_name := "POINT"; rt_casting := 0 |} in
  let t2 := {| rt_oids := [3904%Z]; rt_name := "INT4RANGE"; rt_casting := 1 |} in
  let w := world_of (set_register_types [t1] (conn (Some "+00") None None None)) in
  trace (snd (register_type t2 w)) = []
  /\ trace (snd (reconnect (driver_ok one_row) (snd (register_type t2 w))))
     = [EConnect; ERegisterType "MONEY"; ERegisterType "POINT";
        ERegisterType "INT4RANGE"; ERegisterHstore].
Proof.
  intros t1 t2 w.
  destruct (register_type_is_replayed (driver_ok one_row) t2 w) as (_ & _ & H3 & H4).
  split; [exact H3 | exact (H4 eq_refl)].
Defined.

Lemma init_run (drv : driver) (py_int : value -> outcome Z) (host_or_url : string)
    (database user : option string) (port : value)
    (search_path timezone : option string) (w : world) :
  __init__ drv py_int host_or_url database user port search_path timezone w =
  let c0 := {| host := host_or_url; database := database; logging := false;
               timezone := timezone; _db := None; _register_types := [];
               _search_path := search_path; _change_path := None |} in
  let msg := ELogError "Cannot connect to PostgreSQL on postgresql://%s:<password>@%s/%s"
                       [opt_str user; host_or_url; opt_str database] in
  match py_int port with
  | Raise e =>
      (Raise e, {| self := set_host_database host_or_url database (self w);
                   cursors := cursors w; trace := trace w |})
  | Ret _ =>
      match drv_connect drv (trace w) with
      | Some e =>
          if is_Exception e
          then (Ret tt, {| self := c0; cursors := cursors w;
                           trace := trace w ++ [EConnect; msg] |})
          else (Raise e, {| self := c0; cursors := cursors w; trace := trace w ++ [EConnect] |})
      | None =>
          let tr := trace w ++ [EConnect; ERegisterType "MONEY"] in
          let c1 := set_db (Some (length (trace w))) c0 in
          match drv_register_hstore drv tr with
          | None =>
              (Ret tt, {| self := c1; cursors := cursors w; trace := tr ++ [ERegisterHstore] |})
          | Some e =>
              if is_ProgrammingError e
              then (Ret tt, {| self := c1; cursors := cursors w;
                               trace := tr ++ [ERegisterHstore] |})
              else if is_Exception e
              then (Ret tt, {| self := c1; cursors := cursors w;
                               trace := tr ++ [ERegisterHstore; msg] |})
              else (Raise e, {| self := c1; cursors := cursors w;
                                trace := tr ++ [ERegisterHstore] |})
          end
      end
  end.
Proof.
  unfold __init__. unfold bind at 1, get_self at 1.
  unfold bind at 1, put_self at 1. unfold bind at 1, of_outcome at 1.
  cbn [self cursors trace].
  destruct (py_int port) as [n|e]; [|reflexivity].
  unfold bind at 1, put_self at 1. unfold try_except.
  rewrite reconnect_run. unfold closed. cbn [self _db trace cursors _register_types].
  cbv zeta. unfold registrations. cbn [map].
  destruct (drv_connect drv (trace w)) as [e|].
  - destruct (is_Exception e); [|reflexivity].
    unfold log_error, emit. cbn [self cursors trace]. now rewrite <- app_assoc.
  - destruct (drv_register_hstore drv _) as [e|]; [|reflexivity].
    destruct (is_ProgrammingError e); [reflexivity|].
    destruct (is_Exception e); [|reflexivity].
    unfold log_error, emit. cbn [self cursors trace]. now rewrite <- app_assoc.
Qed.

(** Construction with discrete fields, once [int(port)] has given a
    number, never fails on an [Exception] of the driver: a refused
    connection is logged and swallowed, the object is left disconnected
    with the settings it was given, and its first statement call
    connects. *)
Theorem init_swallows_connect_failure (drv : driver) (py_int : value -> outcome Z)
    (host_or_url : string) (database user : option string) (port : value)
    (search_path timezone : option string) (w : world) (n : Z) (e : exn) :
  PyStr.startswith "postgres://" host_or_url = false ->
  py_int port = Ret n ->
  drv_connect drv (trace w) = Some e ->
  is_Exception e = true ->
  let r := __init__ drv py_int host_or_url database user port search_path timezone w in
  fst r = Ret tt
  /\ self (snd r)
     = {| host := host_or_url; database := database; logging := false;
          timezone := timezone; _db := None; _register_types := [];
          _search_path := search_path; _change_path := None |}
  /\ trace (snd r)
     = trace w ++ [EConnect;
                   ELogError "Cannot connect to PostgreSQL on postgresql://%s:<password>@%s/%s"
                             [opt_str user; host_or_url; opt_str database]]
  /\ forall q ps kw, starts_with EConnect (query drv q ps kw) (snd r).
Proof.
  intros _ Hp Hc He r. subst r. rewrite init_run, Hp, Hc, He. cbv zeta.
  cbn [fst snd self trace].
  repeat split.
  intros q ps kw. unfold query. apply starts_with_bind; [|grows_tac].
  apply cursor_starts_with_connect. reflexivity.
Qed.

Lemma init_swallows_connect_failure_witness :
  let r := __init__ driver_down (int_answers (Ret 5432%Z)) "db.example.org" (Some "shop")
                    (Some "app") (VInt 5432) None (Some "+00")
                    (world_of (conn None None None None)) in
  fst r = Ret tt
  /\ _db (self (snd r)) = None
  /\ trace (snd r)
     = [EConnect;
        ELogError "Cannot connect to PostgreSQL on postgresql://%s:<password>@%s/%s"
                  ["app"; "db.example.org"; "shop"]].
Proof.
  intros r.
  destruct (init_swallows_connect_failure driver_down (int_answers (Ret 5432%Z))
              "db.example.org" (Some "shop") (Some "app") (VInt 5432) None (Some "+00")
              (world_of (conn None None None None)) 5432%Z
              (OperationalError "connection refused"))
    as (H1 & H2 & H3 & _); [reflexivity | reflexivity | reflexivity | reflexivity |].
  split; [exact H1|]. split; [|exact H3].
  unfold r. rewrite H2. reflexivity.
Defined.

(** Construction with discrete fields: an error of [int(port)] leaves the
    constructor as it is, before anything is asked of the driver and with
    nothing logged; otherwise the constructor returns or lets a
    non-[Exception] error through, and when the driver accepts the
    connection the object is connected, also when enabling hstore then
    fails. *)
Theorem init_connects (drv : driver) (py_int : value -> outcome Z)
    (host_or_url : string) (database user : option string) (port : value)
    (search_path timezone : option string) (w : world) :
  PyStr.startswith "postgres://" host_or_url = false ->
  let r := __init__ drv py_int host_or_url database user port search_path timezone w in
  match py_int port with
  | Raise e => fst r = Raise e /\ trace (snd r) = trace w
  | Ret _ =>
      (fst r = Ret tt \/ fst r = Raise KeyboardInterrupt)
      /\ (drv_connect drv (trace w) = None ->
          _db (self (snd r)) = Some (length (trace w))
          /\ exists rest,
               trace (snd r) = trace w ++ EConnect :: ERegisterType "MONEY" :: rest)
  end.
Proof.
  intros _ r. subst r. rewrite init_run. cbv zeta.
  destruct (py_int port) as [n|e0]; [|split; reflexivity].
  destruct (drv_connect drv (trace w)) as [e|].
  - split; [|discriminate].
    destruct e; cbn [is_Exception fst]; auto.
  - destruct (drv_register_hstore drv _) as [e|].
    + split.
      * destruct e; cbn [is_ProgrammingError is_Exception fst]; auto.
      * intros _.
        destruct e; cbn [is_ProgrammingError is_Exception];
          (split; [reflexivity|]); eexists; cbn [snd trace];
          rewrite <- app_assoc; reflexivity.
    + split; [left; reflexivity|]. intros _. split; [reflexivity|].
      eexists. cbn [snd trace]. rewrite <- app_assoc. reflexivity.
Qed.

Lemma init_connects_witness :
  let ok := __init__ (driver_ok one_row) (int_answers (Ret 5432%Z)) "db.example.org"
                     (Some "shop") (Some "app") (VInt 5432) None (Some "+00")
                     (world_of (conn None None None None)) in
  let bad := __init__ (driver_ok one_row)
                      (int_answers (Raise (ValueError "invalid literal for int() with base 10: '5432x'")))
                      "db.example.org" (Some "shop") (Some "app") (VStr "5432x") None (Some "+00")
                      (world_of (conn None None None None)) in
  (fst ok = Ret tt /\ _db (self (snd ok)) = Some 0)
  /\ fst bad = Raise (ValueError "invalid literal for int() with base 10: '5432x'")
  /\ trace (snd bad) = [].
Proof.
  intros ok bad. split.
  - pose proof (init_connects (driver_ok one_row) (int_answers (Ret 5432%Z)) "db.example.org"
                  (Some "shop") (Some "app") (VInt 5432) None (Some "+00")
                  (world_of (conn None None None None)) eq_refl) as H.
    cbv zeta in H. cbn [int_answers] in H. destruct H as [_ H].
    split; [reflexivity|]. now destruct (H eq_refl).
  - exact (init_connects (driver_ok one_row)
             (int_answers (Raise (ValueError "invalid literal for int() with base 10: '5432x'")))
             "db.example.org" (Some "shop") (Some "app") (VStr "5432x") None (Some "+00")
             (world_of (conn None None None None)) eq_refl).
Defined.

(** ** Cursors and errors on the query surface *)

Lemma keeps_count_refl (w : world) : keeps_count w w.
Proof. reflexivity. Qed.

Lemma keeps_count_trans (w1 w2 w3 : world) :
  keeps_count w1 w2 -> keeps_count w2 w3 -> keeps_count w1 w3.
Proof. unfold keeps_count. congruence. Qed.

Lemma keeps_count_emit (e : event) : respects keeps_count (emit e).
Proof. intros w. reflexivity. Qed.

Lemma keeps_count_put_self (c : Connection) : respects keeps_count (put_self c).
Proof. intros w. reflexivity. Qed.

Lemma keeps_count_put_cursor (c : nat) (st : cursor_state) :
  respects keeps_count (put_cursor c st).
Proof. intros w. unfold keeps_count. simpl. apply length_insert. Qed.

#[local] Hint Resolve keeps_count_emit keeps_count_put_self keeps_count_put_cursor : respects.

Ltac keeps_count_tac := respects_with keeps_count_refl keeps_count_trans.

Lemma keeps_count_close : respects keeps_count close.
Proof. intros w. rewrite close_closed. unfold closed. now destruct (_db (self w)). Qed.

#[local] Hint Resolve keeps_count_close : respects.

Lemma keeps_count_execute (drv : driver) (c : nat) (q : string) (ps : list value)
    (kw : kwargs_t) :
  respects keeps_count (_execute drv c q ps kw).
Proof. unfold _execute, _execute_try. keeps_count_tac. Qed.

Lemma cursor_close_run (c : nat) (w : world) :
  cursor_close c w =
  (Ret tt,
   {| self := self w;
      cursors := <[c := {| cur_closed := true;
                           cur_description := cur_description (default fresh_cursor (cursors w !! c));
                           cur_rows := cur_rows (default fresh_cursor (cursors w !! c));
                           cur_rowcount := cur_rowcount (default fresh_cursor (cursors w !! c)) |}]>
                   (cursors w);
      trace := trace w ++ [ECursorClose c] |}).
Proof. reflexivity. Qed.

(** [execute_rowcount] closes the cursor it obtained whether the statement
    succeeds or raises, and what it returns is the row count the driver
    reported for the one statement it executed. *)
Theorem execute_rowcount_closes_cursor (drv : driver) (q : string) (ps : list value)
    (kw : kwargs_t) (w w1 : world) (c : nat) :
  _cursor drv w = (Ret c, w1) ->
  let r := execute_rowcount drv q ps kw w in
  (exists st, cursors (snd r) !! c = Some st /\ cur_closed st = true)
  /\ (exists rest, trace (snd r) = trace w1 ++ rest ++ [ECursorClose c])
  /\ forall n, fst r = Ret n ->
       exists res tr,
         drv_execute drv tr (built_statement (self w) q ps kw)
           (Some (snd (rewrite (fst (_set_search_path (self w) q)) ps kw))) = Ret res
         /\ n = res_rowcount res.
Proof.
  intros Hc.
  destruct (cursor_returns _ _ _ _ Hc) as [Hlen Hcur].
  assert (Hses : session (self w1) = session (self w)).
  { pose proof (silent_cursor drv w) as [_ H]. now rewrite Hc in H. }
  assert (Hrun : execute_rowcount drv q ps kw w
                 = try_finally (_execute drv c q ps kw ;;;
                                (let! st := get_cursor c in ret (cur_rowcount st)))
                               (cursor_close c) w1).
  { unfold execute_rowcount. unfold bind at 1. now rewrite Hc. }
  assert (Hfin : forall w2 o,
             _execute drv c q ps kw w1 = (o, w2) ->
             execute_rowcount drv q ps kw w
             = (match o with
                | Ret _ => Ret (cur_rowcount (default fresh_cursor (cursors w2 !! c)))
                | Raise e => Raise e
                end, snd (cursor_close c w2))).
  { intros w2 o He. rewrite Hrun. unfold try_finally, bind. rewrite He.
    destruct o as [[]|e]; reflexivity. }
  pose proof (keeps_count_execute drv c q ps kw w1) as Hk.
  pose proof (grows_execute drv c q ps kw w1) as [l Hl].
  destruct (_execute drv c q ps kw w1) as [o w2] eqn:He.
  cbn [snd] in Hk, Hl. unfold keeps_count in Hk.
  cbv zeta. rewrite (Hfin w2 o eq_refl), cursor_close_run. cbn [fst snd cursors trace].
  split; [|split].
  - eexists. split; [apply list_lookup_insert_eq|reflexivity].
    rewrite Hk, Hcur, length_app. simpl. lia.
  - exists l. now rewrite Hl, <- app_assoc.
  - intros n Hn. destruct o as [[]|e]; [|discriminate]. injection Hn as <-.
    destruct (execute_try_returns _ _ _ _ _ _ _ (execute_returns _ _ _ _ _ _ _ He))
      as (res & tr & Hres & _ & Hst).
    exists res, tr. cbv zeta in Hres.
    destruct (set_search_path_session _ _ q Hses) as [Hq _].
    unfold built_statement. rewrite <- set_search_path_prefix, <- Hq.
    split; [exact Hres|].
    rewrite Hst, list_lookup_insert_eq by (rewrite Hcur, length_app; simpl; lia).
    reflexivity.
Qed.

Lemma execute_rowcount_closes_cursor_witness :
  fst (execute_rowcount (driver_ok one_row) "delete from t" [] [] connected_world) = Ret 1%Z
  /\ closed_flags (snd (execute_rowcount (driver_ok one_row) "delete from t" [] []
                          connected_world)) = [true]
  /\ closed_flags (snd (execute_rowcount
                          (driver_statement_error (ProgrammingError "syntax error"))
                          "delete from" [] [] connected_world)) = [true].
Proof.
  destruct (execute_rowcount_closes_cursor (driver_ok one_row) "delete from t" [] []
              connected_world
              (snd (_cursor (driver_ok one_row) connected_world)) 0)
    as ((st & Hst & Hcl) & _ & _); [reflexivity|].
  repeat split; reflexivity.
Defined.

(** [mogrify] never executes anything: no statement is sent and no session
    setting changes.  What it returns is the driver's rendering of the
    template as given, and when the rendering fails it closes the cursor
    and raises the same error. *)
Theorem mogrify_only_renders (drv : driver) (q : string) (ps : list value)
    (w w1 : world) (c : nat) :
  _cursor drv w = (Ret c, w1) ->
  statements (trace (snd (mogrify drv q ps w))) = statements (trace w)
  /\ session (self (snd (mogrify drv q ps w))) = session (self w)
  /\ match drv_mogrify drv (trace w1) q ps with
     | Ret text =>
         fst (mogrify drv q ps w) = Ret text
         /\ trace (snd (mogrify drv q ps w)) = trace w1 ++ [ECursorMogrify c q ps]
     | Raise e =>
         fst (mogrify drv q ps w) = Raise e
         /\ trace (snd (mogrify drv q ps w))
            = trace w1 ++ [ECursorMogrify c q ps; ECursorClose c]
     end.
Proof.
  intros Hc.
  assert (Hs : respects silent (mogrify drv q ps)).
  { unfold mogrify.
    apply (respects_bind _ silent_refl silent_trans); [apply silent_cursor|].
    silent_tac. }
  destruct (Hs w) as [H1 H2]. split; [exact H1|]. split; [exact H2|].
  assert (Hrun : mogrify drv q ps w
                 = match drv_mogrify drv (trace w1) q ps with
                   | Ret text =>
                       (Ret text, {| self := self w1; cursors := cursors w1;
                                     trace := trace w1 ++ [ECursorMogrify c q ps] |})
                   | Raise e =>
                       (Raise e, snd (cursor_close c
                                        {| self := self w1; cursors := cursors w1;
                                           trace := trace w1 ++ [ECursorMogrify c q ps] |}))
                   end).
  { unfold mogrify. unfold bind at 1. rewrite Hc.
    unfold try_except, cursor_mogrify. rewrite call_run.
    destruct (drv_mogrify drv (trace w1) q ps); reflexivity. }
  rewrite Hrun. destruct (drv_mogrify drv (trace w1) q ps).
  - split; reflexivity.
  - rewrite cursor_close_run. cbn [fst snd trace]. split; [reflexivity|].
    now rewrite <- app_assoc.
Qed.

Lemma mogrify_only_renders_witness :
  let w := world_of (conn (Some "+00") (Some "public") (Some "tenant1") (Some 0)) in
  fst (mogrify (driver_ok one_row) "select %s" [VInt 1] w) = Ret "select %s"
  /\ statements (trace (snd (mogrify (driver_ok one_row) "select %s" [VInt 1] w))) = []
  /\ _change_path (self (snd (mogrify (driver_ok one_row) "select %s" [VInt 1] w)))
     = Some "tenant1".
Proof.
  intros w.
  destruct (mogrify_only_renders (driver_ok one_row) "select %s" [VInt 1] w
              (snd (_cursor (driver_ok one_row) w)) 0)
    as (H1 & H2 & H3 & _); [reflexivity|].
  split; [exact H3|]. split; [exact H1|]. reflexivity.
Defined.

(** [executemany] returns [True] when [_executemany] returns, leaving the
    cursor open; when it raises an [Exception] the cursor is closed before
    the error is raised again, and an error outside [Exception] passes
    with the cursor left open. *)
Theorem executemany_outcome (drv : driver) (q : string) (ps : list value)
    (w w1 : world) (c : nat) :
  _cursor drv w = (Ret c, w1) ->
  match _executemany drv c q ps w1 with
  | (Ret _, w2) => executemany drv q ps w = (Ret true, w2)
  | (Raise e, w2) =>
      fst (executemany drv q ps w) = Raise e
      /\ self (snd (executemany drv q ps w)) = self w2
      /\ trace (snd (executemany drv q ps w))
         = trace w2 ++ (if is_Exception e then [ECursorClose c] else [])
  end.
Proof.
  intros Hc.
  assert (Hrun : executemany drv q ps w
                 = match _executemany drv c q ps w1 with
                   | (Ret _, w2) => (Ret true, w2)
                   | (Raise e, w2) =>
                       if is_Exception e then (Raise e, snd (cursor_close c w2))
                       else (Raise e, w2)
                   end).
  { unfold executemany. unfold bind at 1. rewrite Hc. unfold try_except.
    unfold bind at 1. destruct (_executemany drv c q ps w1) as [[[]|e] w2];
      [reflexivity|]. destruct (is_Exception e); reflexivity. }
  rewrite Hrun. destruct (_executemany drv c q ps w1) as [[[]|e] w2]; [reflexivity|].
  destruct (is_Exception e); [|now rewrite app_nil_r].
  rewrite cursor_close_run. repeat split.
Qed.

Lemma executemany_outcome_witness :
  fst (executemany (driver_ok one_row) "insert into t values (%s)"
                   [VTuple [VInt 1]; VTuple [VInt 2]] connected_world) = Ret true
  /\ trace (snd (executemany (driver_statement_error KeyboardInterrupt)
                             "insert into t values (%s)" [VTuple [VInt 1]] connected_world))
     = [ECursor 0;
        ECursorExecuteMany 0 "set timezone = '+00';insert into t values (%s)" [VTuple [VInt 1]]]
  /\ trace (snd (executemany (driver_statement_error (ProgrammingError "syntax error"))
                             "insert into t values (%s)" [VTuple [VInt 1]] connected_world))
     = [ECursor 0;
        ECursorExecuteMany 0 "set timezone = '+00';insert into t values (%s)" [VTuple [VInt 1]];
        ECursorClose 0].
Proof.
  pose proof (executemany_outcome (driver_ok one_row) "insert into t values (%s)"
                [VTuple [VInt 1]; VTuple [VInt 2]] connected_world
                (snd (_cursor (driver_ok one_row) connected_world)) 0 eq_refl) as H.
  split; [now rewrite H|]. split; reflexivity.
Defined.

Lemma keeps_db_refl (w : world) : keeps_db w w.
Proof. reflexivity. Qed.

Lemma keeps_db_trans (w1 w2 w3 : world) : keeps_db w1 w2 -> keeps_db w2 w3 -> keeps_db w1 w3.
Proof. unfold keeps_db. congruence. Qed.

Lemma keeps_db_emit (e : event) : respects keeps_db (emit e).
Proof. intros w. reflexivity. Qed.

Lemma keeps_db_put_cursor (c : nat) (st : cursor_state) : respects keeps_db (put_cursor c st).
Proof. intros w. reflexivity. Qed.

Lemma set_search_path_db (c : Connection) (q : string) :
  _db (snd (_set_search_path c q)) = _db c.
Proof.
  destruct (set_search_path_timezone c q) as [_ ->]. unfold apply_search_path.
  destruct (truthy (_change_path c) && negb (has_search_path q));
    [|destruct (truthy (_search_path c) && negb (has_search_path q))]; reflexivity.
Qed.

Lemma keeps_db_set_search_path (q : string) : respects keeps_db (set_search_path_m q).
Proof.
  intros w. unfold set_search_path_m, bind, get_self.
  pose proof (set_search_path_db (self w) q) as H.
  destruct (_set_search_path (self w) q) as [q1 c1]. exact H.
Qed.

#[local] Hint Resolve keeps_db_emit keeps_db_put_cursor keeps_db_set_search_path : respects.

(** An error of the [try] block of [_execute] that is not an operational
    error passes through [_execute] untouched: nothing is logged, the
    session is not closed and the connection keeps its session handle. *)
Theorem other_errors_keep_the_session (drv : driver) (c : nat) (q : string)
    (ps : list value) (kw : kwargs_t) (w w' : world) (e : exn) :
  _execute drv c q ps kw w = (Raise e, w') ->
  is_OperationalError e = false ->
  _execute_try drv c q ps kw w = (Raise e, w')
  /\ _db (self w') = _db (self w).
Proof.
  intros He Hop.
  assert (Htry : _execute_try drv c q ps kw w = (Raise e, w')).
  { unfold _execute, try_except in He.
    destruct (_execute_try drv c q ps kw w) as [[[]|e0] w1]; [discriminate|].
    destruct (is_OperationalError e0) eqn:E0.
    - rewrite on_operational_error_run in He. injection He as <- _.
      rewrite E0 in Hop. discriminate.
    - exact He. }
  split; [exact Htry|].
  assert (Hk : respects keeps_db (_execute_try drv c q ps kw)).
  { unfold _execute_try.
    apply (respects_bind _ keeps_db_refl keeps_db_trans);
      [apply keeps_db_set_search_path|].
    respects_with keeps_db_refl keeps_db_trans. }
  specialize (Hk w). now rewrite Htry in Hk.
Qed.

Lemma other_errors_keep_the_session_witness :
  let drv := driver_statement_error (ProgrammingError "syntax error") in
  _db (self (snd (_execute drv 0 "selec 1" [] [] connected_world))) = Some 0
  /\ trace (snd (_execute drv 0 "selec 1" [] [] connected_world))
     = [ECursorExecute 0 "set timezone = '+00';selec 1" (Some [])].
Proof.
  intros drv.
  destruct (other_errors_keep_the_session drv 0 "selec 1" [] [] connected_world
              (snd (_execute drv 0 "selec 1" [] [] connected_world))
              (ProgrammingError "syntax error")) as [_ H];
    [reflexivity | reflexivity |].
  split; [exact H | reflexivity].
Defined.

(** A statement call on a disconnected connection starts by connecting;
    on a connected one [_ensure_connected] does nothing at all. *)
Theorem statement_calls_connect_lazily (drv : driver) (q : string) (ps : list value)
    (kw : kwargs_t) (w : world) :
  (_db (self w) = None ->
     starts_with EConnect (query drv q ps kw) w
     /\ starts_with EConnect (get drv q ps kw) w
     /\ starts_with EConnect (executemany drv q ps) w
     /\ starts_with EConnect (execute_rowcount drv q ps kw) w
     /\ starts_with EConnect (mogrify drv q ps) w
     /\ starts_with EConnect (file_execute drv q) w)
  /\ (_db (self w) <> None -> _ensure_connected drv w = (Ret tt, w)).
Proof.
  split.
  - intros Hdb. pose proof (cursor_starts_with_connect drv w Hdb) as Hc.
    repeat split.
    + unfold query. apply starts_with_bind; [exact Hc | grows_tac].
    + unfold get, query. apply starts_with_bind; [|grows_tac].
      apply starts_with_bind; [exact Hc | grows_tac].
    + unfold executemany. apply starts_with_bind; [exact Hc | grows_tac].
    + unfold execute_rowcount. apply starts_with_bind; [exact Hc | grows_tac].
    + unfold mogrify, cursor_mogrify. apply starts_with_bind; [exact Hc | grows_tac].
    + unfold file_execute. apply starts_with_bind; [exact Hc | grows_tac].
  - intros Hdb. unfold _ensure_connected, bind, get_self.
    destruct (_db (self w)); [reflexivity | contradiction].
Qed.

Lemma statement_calls_connect_lazily_witness :
  let w := world_of (conn (Some "+00") None None None) in
  trace (snd (query (driver_ok one_row) "select 1" [] [] w))
  = [EConnect; ERegisterType "MONEY"; ERegisterHstore; ECursor 0;
     ECursorExecute 0 "set timezone = '+00';select 1" (Some [])]
  /\ _ensure_connected (driver_ok one_row) connected_world = (Ret tt, connected_world).
Proof.
  intros w.
  destruct (statement_calls_connect_lazily (driver_ok one_row) "select 1" [] []
              connected_world) as [_ H].
  split; [reflexivity | apply H; discriminate].
Defined.

Lemma set_search_path_logging (c : Connection) (q : string) :
  logging (snd (_set_search_path c q)) = logging c.
Proof.
  destruct (set_search_path_timezone c q) as [_ ->]. unfold apply_search_path.
  destruct (truthy (_change_path c) && negb (has_search_path q));
    [|destruct (truthy (_search_path c) && negb (has_search_path q))]; reflexivity.
Qed.

(** On a connected connection with logging off, a [query] that the driver
    executes makes exactly two driver calls, the cursor and one [execute]
    with the built statement: it does not reconnect, and it does not close
    the cursor. *)
Theorem query_connected_round_trip (drv : driver) (q : string) (ps : list value)
    (kw : kwargs_t) (w : world) (s : nat) (res : exec_result) :
  _db (self w) = Some s ->
  logging (self w) = false ->
  drv_cursor drv (trace w) = None ->
  let c := length (cursors w) in
  let stmt := built_statement (self w) q ps kw in
  let ps' := snd (rewrite (fst (_set_search_path (self w) q)) ps kw) in
  drv_execute drv (trace w ++ [ECursor c]) stmt (Some ps') = Ret res ->
  trace (snd (query drv q ps kw w))
    = trace w ++ [ECursor c; ECursorExecute c stmt (Some ps')]
  /\ self (snd (query drv q ps kw w)) = snd (_set_search_path (self w) q)
  /\ fst (query drv q ps kw w)
     = Ret (match res_description res with
            | Some (name :: names) =>
                Some (map (fun row => Row (zip (name :: names) row)) (res_rows res))
            | _ => None
            end).
Proof.
  intros Hdb Hlog Hcur c stmt ps' Hex.
  set (w1 := {| self := self w; cursors := cursors w ++ [fresh_cursor];
                trace := trace w ++ [ECursor c] |}).
  assert (Hc : _cursor drv w = (Ret c, w1)).
  { unfold _cursor, _ensure_connected, bind, get_self, get_trace, new_cursor, emit, ret.
    rewrite Hdb. cbn [self cursors trace]. rewrite Hcur. reflexivity. }
  set (w2 := {| self := snd (_set_search_path (self w) q);
                cursors := <[c := {| cur_closed := false;
                                     cur_description := res_description res;
                                     cur_rows := res_rows res;
                                     cur_rowcount := res_rowcount res |}]>
                             (cursors w ++ [fresh_cursor]);
                trace := trace w ++ [ECursor c; ECursorExecute c stmt (Some ps')] |}).
  assert (He : _execute drv c q ps kw w1 = (Ret tt, w2)).
  { pose proof (set_search_path_logging (self w) q) as Hl.
    pose proof (set_search_path_prefix (self w) q) as Hp.
    subst stmt ps' w2. unfold built_statement in *. rewrite <- Hp in *. clear Hp.
    unfold _execute, try_except, _execute_try, set_search_path_m, cursor_mogrify,
      cursor_execute, call, log_info.
    unfold bind, get_self, put_self, get_trace, emit, ret, raise, get_cursor, put_cursor.
    unfold w1. cbn [self cursors trace].
    destruct (_set_search_path (self w) q) as [q1 c1]. cbn [fst snd self cursors trace] in *.
    destruct (rewrite q1 ps kw) as [q2 ps2]. cbn [fst snd self cursors trace] in *.
    rewrite Hl, Hlog. cbn [self cursors trace]. rewrite Hex.
    cbn [self cursors trace]. rewrite list_lookup_middle by reflexivity.
    cbn [default from_option cur_closed fresh_cursor]. rewrite <- app_assoc. reflexivity. }
  assert (Hq : query drv q ps kw w
               = (Ret (match res_description res with
                       | Some (name :: names) =>
                           Some (map (fun row => Row (zip (name :: names) row)) (res_rows res))
                       | _ => None
                       end), w2)).
  { unfold query. unfold bind at 1. rewrite Hc. unfold try_except. unfold bind at 1.
    rewrite He. unfold bind, get_cursor. subst w2. cbn [cursors].
    rewrite list_lookup_insert_eq by (rewrite length_app; simpl; lia).
    cbn [default from_option cur_description cur_rows].
    destruct (res_description res) as [[|name names]|]; reflexivity. }
  rewrite Hq. repeat split.
Qed.

Lemma query_connected_round_trip_witness :
  trace (snd (query (driver_ok one_row) "select id from t where id = %s" [VInt 1] []
                    connected_world))
  = [ECursor 0;
     ECursorExecute 0 "set timezone = '+00';select id from t where id = %s" (Some [VInt 1])].
Proof.
  destruct (query_connected_round_trip (driver_ok one_row)
              "select id from t where id = %s" [VInt 1] [] connected_world 0 one_row)
    as [H _]; [reflexivity | reflexivity | reflexivity | reflexivity |].
  exact H.
Defined.

(** ** Statement building *)

(** The built statement is the template, unchanged, behind at most one
    timezone directive and at most one search-path directive, in that
    order; the build changes nothing of the connection but the one-shot
    override; and a template that already begins with [set search_path]
    gets the timezone directive only and consumes nothing. *)
Theorem built_statement_shape (c : Connection) (q : string) :
  fst (_set_search_path c q) = timezone_prefix c +:+ schema_prefix c q +:+ q
  /\ (snd (_set_search_path c q) = c \/ snd (_set_search_path c q) = set_change_path None c)
  /\ (has_search_path q = true ->
      fst (_set_search_path c q) = timezone_prefix c +:+ q
      /\ snd (_set_search_path c q) = c).
Proof.
  split; [apply set_search_path_prefix|].
  destruct (set_search_path_timezone c q) as [H1 H2]. rewrite H1, H2.
  unfold apply_search_path. split.
  - destruct (truthy (_change_path c) && negb (has_search_path q));
      [|destruct (truthy (_search_path c) && negb (has_search_path q))]; auto.
  - intros ->. cbn [negb]. rewrite !andb_false_r. split; reflexivity.
Qed.

Lemma built_statement_shape_witness :
  let c := conn (Some "+00") (Some "public") (Some "tenant1") None in
  fst (_set_search_path c "SET search_path = audit;select 1")
    = "set timezone = '+00';SET search_path = audit;select 1"
  /\ snd (_set_search_path c "SET search_path = audit;select 1") = c.
Proof.
  intros c.
  destruct (built_statement_shape c "SET search_path = audit;select 1") as (_ & _ & H).
  exact (H eq_refl).
Defined.

Lemma startswith_ci_lower (p s : string) :
  PyStr.startswith_ci p s = PyStr.startswith (lower_string p) (lower_string s).
Proof.
  revert s. induction p as [|a p IH]; intros s; [reflexivity|].
  destruct s as [|b s]; [reflexivity|]. simpl. now rewrite IH.
Qed.

(** The test for a leading [set search_path] ignores the case of ASCII
    letters and nothing else: it is the plain prefix test on the
    lower-cased template. *)
Theorem has_search_path_ignores_case (q : string) :
  has_search_path q = PyStr.startswith "set search_path" (lower_string q)
  /\ has_search_path (lower_string q) = has_search_path q.
Proof.
  unfold has_search_path. rewrite !startswith_ci_lower. split; [reflexivity|].
  f_equal. induction q as [|c q IH]; [reflexivity|]. simpl. rewrite IH. f_equal.
  unfold PyStr.lower.
  destruct ((65 <=? nat_of_ascii c)%nat && (nat_of_ascii c <=? 90)%nat) eqn:E.
  - rewrite nat_ascii_embedding.
    + apply andb_true_iff in E as [E1 E2].
      apply Nat.leb_le in E1, E2.
      replace ((nat_of_ascii c + 32 <=? 90)%nat) with false
        by (symmetry; apply Nat.leb_gt; lia).
      now rewrite andb_false_r.
    + apply andb_true_iff in E as [_ E2]. apply Nat.leb_le in E2. lia.
  - now rewrite E.
Qed.

(** ** Splitting, joining and replacing *)

Lemma split_go_skip (sep : string) (k : nat) (s : string) :
  PyStr.split_go sep k s = PyStr.split_go sep 0 (PyStr.drop k s).
Proof.
  revert k. induction s as [|c s IH]; intros k.
  - destruct k; reflexivity.
  - destruct k as [|k]; [reflexivity|]. simpl PyStr.drop. rewrite <- IH. reflexivity.
Qed.

Lemma split_cons (sep s : string) :
  PyStr.split sep s = fst (PyStr.split_go sep 0 s) :: snd (PyStr.split_go sep 0 s).
Proof. unfold PyStr.split. now destruct (PyStr.split_go sep 0 s). Qed.

Lemma split_match (sep rest : string) :
  sep <> "" -> PyStr.split sep (sep +:+ rest) = "" :: PyStr.split sep rest.
Proof.
  intros Hne. destruct sep as [|c sep]; [contradiction|].
  rewrite (split_cons _ rest), (split_cons _ (String c sep +:+ rest)).
  simpl PyStr.split_go.
  assert (Hs : PyStr.startswith (String c sep) (String c (sep +:+ rest)) = true)
    by (apply startswith_spec; now exists rest).
  simpl in Hs. rewrite Hs. cbn [fst snd].
  rewrite split_go_skip, Nat.sub_0_r, drop_append.
  now destruct (PyStr.split_go (String c sep) 0 rest).
Qed.

Lemma split_no_match (sep : string) (c : ascii) (s : string) :
  PyStr.startswith sep (String c s) = false ->
  PyStr.split sep (String c s)
  = String c (fst (PyStr.split_go sep 0 s)) :: snd (PyStr.split_go sep 0 s).
Proof.
  intros H. rewrite split_cons. simpl PyStr.split_go. simpl in H. rewrite H.
  now destruct (PyStr.split_go sep 0 s).
Qed.

Lemma join_cons (sep x y : string) (l : list string) :
  PyStr.join sep (x :: y :: l) = x +:+ sep +:+ PyStr.join sep (y :: l).
Proof. reflexivity. Qed.

Lemma join_cons_char (sep : string) (c : ascii) (x : string) (l : list string) :
  PyStr.join sep (String c x :: l) = String c (PyStr.join sep (x :: l)).
Proof. destruct l; reflexivity. Qed.

Lemma join_split_is_replace (sep : string) :
  sep <> "" ->
  forall n s, String.length s <= n ->
  forall t, PyStr.join t (PyStr.split sep s) = PyStr.replace sep t s.
Proof.
  intros Hne.
  induction n as [|n IH]; intros s0 Hlen t;
    (destruct s0 as [|c s0]; [reflexivity | simpl in Hlen; try lia]).
  destruct (PyStr.startswith sep (String c s0)) eqn:Hm.
  - apply startswith_spec in Hm as [rest Hrest]. rewrite Hrest.
    rewrite (split_match _ _ Hne), (replace_match _ _ _ Hne).
    rewrite (split_cons sep rest), join_cons, <- split_cons. cbn [String.append].
    rewrite IH; [reflexivity|].
    apply (f_equal String.length) in Hrest. rewrite length_append in Hrest.
    simpl in Hrest. pose proof (length_pos sep Hne). lia.
  - rewrite (split_no_match _ _ _ Hm), (replace_no_match _ _ _ _ Hm).
    rewrite join_cons_char, <- split_cons. rewrite IH by lia. reflexivity.
Qed.

Lemma replace_by_itself (sep : string) :
  sep <> "" -> forall n s, String.length s <= n -> PyStr.replace sep sep s = s.
Proof.
  intros Hne.
  induction n as [|n IH]; intros s0 Hlen;
    (destruct s0 as [|c s0]; [reflexivity | simpl in Hlen; try lia]).
  destruct (PyStr.startswith sep (String c s0)) eqn:Hm.
  - apply startswith_spec in Hm as [rest Hrest]. rewrite Hrest at 1.
    rewrite (replace_match _ _ _ Hne), IH; [now rewrite Hrest|].
    apply (f_equal String.length) in Hrest. rewrite length_append in Hrest.
    simpl in Hrest. pose proof (length_pos sep Hne). lia.
  - rewrite (replace_no_match _ _ _ _ Hm), IH by lia. reflexivity.
Qed.

Lemma join_split (sep s : string) : sep <> "" -> PyStr.join sep (PyStr.split sep s) = s.
Proof.
  intros Hne. rewrite (join_split_is_replace sep Hne (String.length s) s (Nat.le_refl _)).
  apply (replace_by_itself sep Hne (String.length s)). lia.
Qed.

(** Joining the segments of [s.split(sep)] with [sep] gives [s] back, and
    joining them with another text is [s.replace(sep, text)]. *)
Theorem split_join_round_trip (sep new s : string) :
  sep <> "" ->
  PyStr.join sep (PyStr.split sep s) = s
  /\ PyStr.join new (PyStr.split sep s) = PyStr.replace sep new s.
Proof.
  intros Hne. split; [now apply join_split|].
  apply (join_split_is_replace sep Hne (String.length s)). lia.
Qed.

Lemma split_join_round_trip_witness :
  PyStr.split "%s" "a=%s and b=%s" = ["a="; " and b="; ""]
  /\ PyStr.join "%s" (PyStr.split "%s" "a=%s and b=%s") = "a=%s and b=%s"
  /\ PyStr.join "?" (PyStr.split "%s" "a=%s and b=%s") = "a=? and b=?".
Proof.
  split; [reflexivity|].
  destruct (split_join_round_trip "%s" "?" "a=%s and b=%s") as [H1 H2]; [discriminate|].
  split; [exact H1|]. rewrite H2. reflexivity.
Defined.

(** ** The keyword rewrite on the edges of its contract *)

Lemma occurs_in_join (sep x : string) (l : list string) :
  In x l -> occurs x (PyStr.join sep l).
Proof.
  induction l as [|y l IH]; [contradiction|].
  intros [-> | Hin].
  - destruct l as [|z l].
    + exists "", "". simpl. now rewrite append_nil_r.
    + exists "", (sep +:+ PyStr.join sep (z :: l)). reflexivity.
  - destruct l as [|z l]; [contradiction|].
    destruct (IH Hin) as (a & b & Hab).
    exists (y +:+ sep +:+ a), b. rewrite join_cons, Hab. now rewrite !append_assoc.
Qed.

Lemma occurs_trans (t x s : string) : occurs t x -> occurs x s -> occurs t s.
Proof.
  intros (a & b & ->) (a' & b' & ->). exists (a' +:+ a), (b +:+ b').
  now rewrite !append_assoc.
Qed.

Lemma find_index_Some {A : Type} (f : A -> bool) (l : list A) (i : nat) :
  find_index f l = Some i -> i < length l /\ exists x, In x l /\ f x = true.
Proof.
  revert i. induction l as [|x l IH]; intros i; simpl; [discriminate|].
  destruct (f x) eqn:E.
  - intros [= <-]. split; [lia|]. exists x. auto.
  - destruct (find_index f l) as [j|]; simpl; [|discriminate].
    intros [= <-]. destruct (IH j eq_refl) as (Hj & y & Hy & Hfy).
    split; [lia|]. exists y. auto.
Qed.

Lemma parampos_bound (q : string) : parampos q <= marker_count q.
Proof.
  rewrite parampos_earliest. unfold earliest_data_segment, marker_count.
  destruct (find_index _ _) as [i|] eqn:E; [|lia].
  apply find_index_Some in E as [Hi _]. lia.
Qed.

Lemma parampos_absent (q : string) : PyStr.contains "__data__" q = false -> parampos q = 0.
Proof.
  intros Hq. rewrite parampos_earliest. unfold earliest_data_segment.
  destruct (find_index _ _) as [i|] eqn:E; [|reflexivity].
  apply find_index_Some in E as (_ & x & Hx & Hfx).
  apply contains_false in Hq. exfalso. apply Hq.
  apply contains_spec in Hfx.
  apply (occurs_trans _ x); [exact Hfx|].
  rewrite <- (join_split "%s" q) at 1 by discriminate.
  now apply occurs_in_join.
Qed.

Lemma replace_absent (old new s : string) :
  PyStr.contains old s = false -> PyStr.replace old new s = s.
Proof.
  induction s as [|c s IH]; [reflexivity|].
  cbn [PyStr.contains]. intros H. apply orb_false_iff in H as [H1 H2].
  rewrite (replace_no_match _ _ _ _ H1), (IH H2). reflexivity.
Qed.

(** Keyword arguments for a template that has none of the three tokens
    leave the template as it is and put their values in front of the
    positional parameters: nothing is raised. *)
Theorem rewrite_without_tokens (q : string) (ps : list value) (kw : kwargs_t) :
  PyStr.contains "__data__" q = false ->
  PyStr.contains "__keys__" q = false ->
  PyStr.contains "__values__" q = false ->
  rewrite q ps kw = (q, map snd kw ++ ps).
Proof.
  intros Hd Hk Hv. destruct kw as [|kv kw]; [reflexivity|].
  unfold rewrite, rewrite_kwargs. cbv zeta.
  rewrite (replace_absent _ _ _ Hd), (replace_absent _ _ _ Hk), (replace_absent _ _ _ Hv).
  f_equal. rewrite (parampos_absent q Hd).
  rewrite (insert_in_order 0 (map snd (kv :: kw)) ps) by lia.
  reflexivity.
Qed.

Lemma rewrite_without_tokens_witness :
  rewrite "select * from t where id = %s" [VInt 7] [("name", VStr "a")]
  = ("select * from t where id = %s", [VStr "a"; VInt 7]).
Proof.
  apply (rewrite_without_tokens "select * from t where id = %s" [VInt 7] [("name", VStr "a")]);
    reflexivity.
Defined.

(** The insertion position never exceeds the number of markers, so a call
    that passes at least as many positional parameters as the template has
    markers gets the keyword values inserted at that position in the order
    of the keyword arguments. *)
Theorem rewrite_in_order_with_enough_parameters (q : string) (ps : list value)
    (kw : kwargs_t) :
  kw <> [] ->
  marker_count q <= length ps ->
  parampos q <= marker_count q
  /\ snd (rewrite q ps kw)
     = firstn (parampos q) ps ++ map snd kw ++ skipn (parampos q) ps.
Proof.
  intros Hkw Hm. pose proof (parampos_bound q) as Hb. split; [exact Hb|].
  destruct kw as [|kv kw]; [contradiction|].
  unfold rewrite, rewrite_kwargs. cbv zeta. unfold snd at 1.
  apply insert_in_order. lia.
Qed.

Lemma rewrite_in_order_with_enough_parameters_witness :
  marker_count "UPDATE t SET x=%s, __data__ WHERE id=%s" = 2
  /\ snd (rewrite "UPDATE t SET x=%s, __data__ WHERE id=%s" [VInt 9; VInt 5]
                  [("b", VInt 2); ("a", VInt 1)])
     = [VInt 9; VInt 2; VInt 1; VInt 5].
Proof.
  split; [reflexivity|].
  destruct (rewrite_in_order_with_enough_parameters
              "UPDATE t SET x=%s, __data__ WHERE id=%s" [VInt 9; VInt 5]
              [("b", VInt 2); ("a", VInt 1)]) as [_ H];
    [discriminate | vm_compute; lia | exact H].
Defined.

(** ** [_cast_money], [notices] and [Row] *)

Lemma inert_empty (c : ascii) : inert (String c "") "".
Proof.
  split.
  - intros ([|x a] & b & H); discriminate.
  - intros x y [|zc z] H _ Hx _; [|discriminate]. simpl in H. now subst x.
  - intros [|xc x] y z H _ Hx _; [contradiction | discriminate].
  - intros [|ac a] b H Ha Hb; [contradiction|].
    simpl in H. injection H as _ H. destruct a; [|discriminate].
    simpl in H. now subst b.
Qed.

(** The text that [_cast_money] hands to [Decimal] has no comma and no
    dollar sign left, a text without them is handed over unchanged, and
    [None] is answered with [None]. *)
Theorem cast_money_strips_separators (s : string) :
  (exists t, _cast_money (Some s) = Some t
             /\ PyStr.contains "," t = false /\ PyStr.contains "$" t = false)
  /\ (PyStr.contains "," s = false -> PyStr.contains "$" s = false ->
      _cast_money (Some s) = Some s)
  /\ _cast_money None = None.
Proof.
  split; [|split; [|reflexivity]].
  - eexists. split; [reflexivity|]. split; apply contains_false.
    + apply replace_keeps_free; [discriminate | apply inert_empty|].
      apply replace_removes; [discriminate | apply inert_empty].
    + apply replace_removes; [discriminate | apply inert_empty].
  - intros Hc Hd. unfold _cast_money.
    now rewrite (replace_absent _ _ _ Hc), (replace_absent _ _ _ Hd).
Qed.

Lemma cast_money_strips_separators_witness :
  _cast_money (Some "$1,234,567.89") = Some "1234567.89"
  /\ _cast_money (Some "-12.50") = Some "-12.50".
Proof.
  split; [reflexivity|].
  destruct (cast_money_strips_separators "-12.50") as (_ & H & _).
  apply H; reflexivity.
Defined.

Lemma pop_notices_all (n : nat) : forall pending,
  length pending = n ->
  pop_notices n pending
  = Some (map (fun x => strip (PyStr.drop 8 x)) (rev pending), []).
Proof.
  induction n as [|n IH]; intros pending Hlen.
  - destruct pending; [reflexivity | discriminate].
  - cbn [pop_notices]. unfold list_pop.
    destruct (rev pending) as [|x r] eqn:E.
    + apply (f_equal (@length _)) in E. rewrite length_rev, Hlen in E. discriminate.
    + rewrite (IH (rev r)).
      * now rewrite rev_involutive.
      * apply (f_equal (@length _)) in E. rewrite length_rev, Hlen in E.
        simpl in E. rewrite length_rev. lia.
Qed.

Lemma rstrip_last (c : ascii) (s : string) :
  PyStr.is_space c = true -> last_is c (rstrip s) = false.
Proof.
  intros Hc. induction s as [|a s IH]; [reflexivity|].
  cbn [rstrip]. destruct (rstrip s) as [|b r] eqn:E.
  - destruct (PyStr.is_space a) eqn:Ea; [reflexivity|].
    cbn [last_is]. destruct (Ascii.eqb a c) eqn:Eac; [|reflexivity].
    apply Ascii.eqb_eq in Eac. subst a. rewrite Hc in Ea. discriminate.
  - exact IH.
Qed.

Lemma rstrip_first (c a : ascii) (s : string) :
  PyStr.is_space c = true -> PyStr.is_space a = false ->
  PyStr.startswith (String c "") (rstrip (String a s)) = false.
Proof.
  intros Hc Ha.
  assert (Hac : Ascii.eqb c a = false).
  { destruct (Ascii.eqb c a) eqn:E; [|reflexivity].
    apply Ascii.eqb_eq in E. subst a. rewrite Hc in Ha. discriminate. }
  cbn [rstrip]. destruct (rstrip s); [rewrite Ha|]; simpl; now rewrite Hac.
Qed.

Lemma strip_no_outer_space (c : ascii) (s : string) :
  PyStr.is_space c = true ->
  PyStr.startswith (String c "") (strip s) = false /\ last_is c (strip s) = false.
Proof.
  intros Hc. unfold strip. split; [|now apply rstrip_last].
  induction s as [|a s IH]; [reflexivity|].
  cbn [lstrip]. destruct (PyStr.is_space a) eqn:Ea; [exact IH|].
  now apply rstrip_first.
Qed.

(** On a connected connection [notices] never fails, empties the pending
    list and returns the notices newest first, each without its first
    eight characters and without white space at either end; on a
    disconnected one it returns the empty list. *)
Theorem notices_drains_newest_first (c : Connection) (pending : list string) :
  notices c pending
  = match _db c with
    | Some _ => Some (map (fun x => strip (PyStr.drop 8 x)) (rev pending), [])
    | None => Some ([], pending)
    end
  /\ forall out rest, notices c pending = Some (out, rest) ->
       length out = (match _db c with Some _ => length pending | None => 0 end)
       /\ Forall (fun x => forall sp, PyStr.is_space sp = true ->
                    PyStr.startswith (String sp "") x = false /\ last_is sp x = false) out.
Proof.
  assert (H : notices c pending
              = match _db c with
                | Some _ => Some (map (fun x => strip (PyStr.drop 8 x)) (rev pending), [])
                | None => Some ([], pending)
                end).
  { unfold notices. destruct (_db c); [|reflexivity]. now apply pop_notices_all. }
  split; [exact H|].
  intros out rest Hout. rewrite H in Hout.
  destruct (_db c); injection Hout as <- <-.
  - split; [now rewrite length_map, length_rev|].
    apply List.Forall_forall. intros x Hx. apply in_map_iff in Hx as (y & <- & _).
    intros sp Hsp. now apply strip_no_outer_space.
  - split; [reflexivity | constructor].
Qed.

Lemma notices_drains_newest_first_witness :
  let nl := String "010"%char "" in
  notices (conn None None None (Some 0))
          ["NOTICE:  table created" +:+ nl; "WARNING:  no transaction in progress" +:+ nl]
  = Some (["no transaction in progress"; "table created"], []).
Proof.
  intros nl.
  destruct (notices_drains_newest_first (conn None None None (Some 0))
              ["NOTICE:  table created" +:+ nl; "WARNING:  no transaction in progress" +:+ nl])
    as [H _].
  rewrite H. reflexivity.
Defined.

Lemma fold_insert_absent (pairs : list (string * value)) (k : string) :
  ~ In k (map fst pairs) ->
  forall m : gmap string value,
    fold_left (fun m kv => <[kv.1 := kv.2]> m) pairs m !! k = m !! k.
Proof.
  induction pairs as [|[k' v'] pairs IH]; intros Hk m; [reflexivity|].
  simpl in *. rewrite IH by tauto. apply lookup_insert_ne. intros ->. tauto.
Qed.

Lemma fold_insert_present (pairs : list (string * value)) (k : string) (v : value) :
  List.NoDup (map fst pairs) -> In (k, v) pairs ->
  forall m : gmap string value,
    fold_left (fun m kv => <[kv.1 := kv.2]> m) pairs m !! k = Some v.
Proof.
  induction pairs as [|[k' v'] pairs IH]; intros Hnd Hin m; [contradiction|].
  simpl in *. apply List.NoDup_cons_iff in Hnd as [Hk' Hnd].
  destruct Hin as [[= -> ->] | Hin].
  - rewrite fold_insert_absent by exact Hk'. apply lookup_insert_eq.
  - now apply IH.
Qed.

Lemma in_zip (cols : list string) (vals : list value) (k : string) (v : value) :
  In (k, v) (zip cols vals) -> In k cols.
Proof.
  revert vals. induction cols as [|c cols IH]; intros [|x vals]; simpl; try tauto.
  intros [[= -> ->] | H]; [now left | right; eauto].
Qed.

Lemma nodup_zip (cols : list string) (vals : list value) :
  List.NoDup cols -> List.NoDup (map fst (zip cols vals)).
Proof.
  revert vals. induction cols as [|c cols IH]; intros [|x vals] Hnd; simpl;
    try constructor.
  - apply List.NoDup_cons_iff in Hnd as [Hc _]. intros Hin.
    apply in_map_iff in Hin as ([k v] & Hk & Hin). simpl in Hk. subst k.
    apply Hc. eapply in_zip. exact Hin.
  - apply IH. now apply List.NoDup_cons_iff in Hnd as [_ Hnd].
Qed.

Lemma lookup_zip (cols : list string) (vals : list value) (i : nat) (k : string) (v : value) :
  cols !! i = Some k -> vals !! i = Some v -> In (k, v) (zip cols vals).
Proof.
  revert vals i. induction cols as [|c cols IH]; intros [|x vals] [|i]; simpl;
    try discriminate.
  - intros [= ->] [= ->]. now left.
  - intros Hc Hv. right. eauto.
Qed.

(** A row built from distinct column names and a result tuple gives, for
    the name of every column, the value at the same index by key, and by
    attribute too unless the normal lookup finds the name first (a column
    called [keys] is reached by [row["keys"]], while [row.keys] is the
    method of [dict]); a name that is no column is absent by key and, when
    the normal lookup does not find it either, raises [AttributeError] by
    attribute; and of two columns of one name the later value is kept. *)
Theorem row_access (own : string -> bool) (cols : list string) (vals : list value) :
  (List.NoDup cols ->
   forall i k v, cols !! i = Some k -> vals !! i = Some v ->
     Row (zip cols vals) !! k = Some v
     /\ Row_attribute own (Row (zip cols vals)) k
        = if own k then AttrOwn k else AttrValue v)
  /\ (forall name, ~ In name cols ->
        Row (zip cols vals) !! name = None
        /\ Row_attribute own (Row (zip cols vals)) name
           = if own name then AttrOwn name else AttributeError name)
  /\ (forall pairs k v, Row (pairs ++ [(k, v)]) !! k = Some v).
Proof.
  split; [|split].
  - intros Hnd i k v Hk Hv.
    assert (H : Row (zip cols vals) !! k = Some v).
    { unfold Row. apply fold_insert_present.
      - now apply nodup_zip.
      - eapply lookup_zip; eassumption. }
    split; [exact H|]. unfold Row_attribute, Row_getattr. now rewrite H.
  - intros name Hn.
    assert (H : Row (zip cols vals) !! name = None).
    { unfold Row. rewrite fold_insert_absent; [apply lookup_empty|].
      intros Hin. apply in_map_iff in Hin as ([k v] & Hk & Hin). simpl in Hk. subst k.
      apply Hn. eapply in_zip. exact Hin. }
    split; [exact H|]. unfold Row_attribute, Row_getattr. now rewrite H.
  - intros pairs k v. unfold Row. rewrite fold_left_app. simpl. apply lookup_insert_eq.
Qed.

Lemma row_access_witness :
  let row := Row (zip ["id"; "keys"] [VInt 1; VStr "a"]) in
  (row !! "keys" = Some (VStr "a") /\ Row_attribute is_dict_method row "keys" = AttrOwn "keys")
  /\ (row !! "id" = Some (VInt 1) /\ Row_attribute is_dict_method row "id" = AttrValue (VInt 1))
  /\ Row_attribute is_dict_method row "missing" = AttributeError "missing".
Proof.
  intros row.
  destruct (row_access is_dict_method ["id"; "keys"] [VInt 1; VStr "a"]) as (H1 & H2 & _).
  assert (Hnd : List.NoDup ["id"; "keys"]).
  { constructor; [|constructor; [|constructor]]; simpl; intuition discriminate. }
  split; [exact (H1 Hnd 1 "keys" (VStr "a") eq_refl eq_refl)|].
  split; [exact (H1 Hnd 0 "id" (VInt 1) eq_refl eq_refl)|].
  apply H2. simpl. intuition discriminate.
Defined.

(** ** [file] *)

(** Once it has its cursor, the [if _execute:] block of [file] sends the
    script in one [execute] without parameters, behind the search-path
    directive only; it consumes a non-empty one-shot override whatever the
    script begins with; and an error of the driver, operational or not,
    passes through with the session and the cursor left open. *)
Theorem file_execute_run (drv : driver) (sql : string) (w w1 : world) (c : nat) :
  _cursor drv w = (Ret c, w1) ->
  let stmt := file_prefix (self w1) +:+ sql in
  trace (snd (file_execute drv sql w)) = trace w1 ++ [ECursorExecute c stmt None]
  /\ self (snd (file_execute drv sql w))
     = (if truthy (_change_path (self w1)) then set_change_path None (self w1) else self w1)
  /\ fst (file_execute drv sql w)
     = match drv_execute drv (trace w1) stmt None with
       | Ret _ => Ret tt
       | Raise e => Raise e
       end.
Proof.
  intros Hc.
  assert (Hex : forall w2 s, 
             trace (snd (cursor_execute drv c s None w2)) = trace w2 ++ [ECursorExecute c s None]
             /\ self (snd (cursor_execute drv c s None w2)) = self w2
             /\ fst (cursor_execute drv c s None w2)
                = match drv_execute drv (trace w2) s None with
                  | Ret _ => Ret tt
                  | Raise e => Raise e
                  end).
  { intros w2 s. unfold cursor_execute, bind. rewrite call_run.
    destruct (drv_execute drv (trace w2) s None); repeat split. }
  assert (Hrun : file_execute drv sql w
                 = if truthy (_change_path (self w1))
                   then cursor_execute drv c (search_path_stmt (_change_path (self w1)) +:+ sql)
                          None {| self := set_change_path None (self w1);
                                  cursors := cursors w1; trace := trace w1 |}
                   else cursor_execute drv c (default_prefix (self w1) +:+ sql) None w1).
  { unfold file_execute. unfold bind at 1. rewrite Hc. rewrite bind_get_self.
    unfold default_prefix.
    destruct (truthy (_change_path (self w1))); [reflexivity|].
    destruct (truthy (_search_path (self w1))); reflexivity. }
  cbv zeta. rewrite Hrun. unfold file_prefix.
  destruct (truthy (_change_path (self w1))).
  - exact (Hex {| self := set_change_path None (self w1); cursors := cursors w1;
                  trace := trace w1 |} _).
  - exact (Hex w1 _).
Qed.

Lemma file_execute_run_witness :
  let w := world_of (conn (Some "+00") (Some "public") (Some "tenant1") (Some 0)) in
  let drv := driver_statement_error (OperationalError "server closed the connection") in
  trace (snd (file_execute drv "set search_path = audit;select 1" w))
    = [ECursor 0;
       ECursorExecute 0 "set search_path = tenant1;set search_path = audit;select 1" None]
  /\ _change_path (self (snd (file_execute drv "set search_path = audit;select 1" w))) = None
  /\ _db (self (snd (file_execute drv "set search_path = audit;select 1" w))) = Some 0
  /\ fst (file_execute drv "set search_path = audit;select 1" w)
     = Raise (OperationalError "server closed the connection").
Proof.
  intros w drv.
  destruct (file_execute_run drv "set search_path = audit;select 1" w
              (snd (_cursor drv w)) 0) as (H1 & H2 & H3); [reflexivity|].
  split; [exact H1|]. rewrite H2, H3. repeat split.
Defined.

(** ** Witnesses for the error paths of [query] and [_executemany] *)

Lemma query_reraises_witness :
  let drv := driver_statement_error (ProgrammingError "syntax error") in
  fst (query drv "selec 1" [] [] connected_world) = Raise (ProgrammingError "syntax error")
  /\ trace (snd (query drv "selec 1" [] [] connected_world))
     = [ECursor 0; ECursorExecute 0 "set timezone = '+00';selec 1" (Some []); ECursorClose 0].
Proof.
  intros drv.
  destruct (query_reraises drv "selec 1" [] [] connected_world
              (snd (_cursor drv connected_world))
              (snd (_execute drv 0 "selec 1" [] [] (snd (_cursor drv connected_world))))
              0 (ProgrammingError "syntax error")) as (H1 & _ & H3);
    [reflexivity | reflexivity |].
  split; [exact H1 | exact H3].
Defined.

Lemma executemany_operational_failure_witness :
  let drv := driver_statement_error (OperationalError "server closed the connection") in
  fst (_executemany drv 0 "insert into t values (%s)" [VTuple [VInt 1]] connected_world)
    = Raise (OperationalError "server closed the connection")
  /\ _db (self (snd (_executemany drv 0 "insert into t values (%s)" [VTuple [VInt 1]]
                       connected_world))) = None.
Proof.
  intros drv.
  destruct (executemany_operational_failure drv 0 "insert into t values (%s)"
              [VTuple [VInt 1]] connected_world
              (snd (_executemany_try drv 0 "insert into t values (%s)" [VTuple [VInt 1]]
                      connected_world))
              "server closed the connection") as (H1 & _ & H3); [reflexivity|].
  split; [exact H1 | exact H3].
Defined.

(** ** [hstore] *)

Lemma count_char_append (c : ascii) (a b : string) :
  count_char c (a +:+ b) = count_char c a + count_char c b.
Proof. induction a as [|x a IH]; simpl; [reflexivity|]. rewrite IH. lia. Qed.

(** [hstore] quotes every key and value and escapes nothing: the literal
    holds four double quotes per item plus every double quote of the keys
    and values as it came, and the empty dict gives the empty string. *)
Theorem hstore_never_escapes (items : list (string * string)) :
  count_char "034" (hstore items) = 4 * length items + quotes_in items
  /\ hstore [] = "".
Proof.
  split; [|reflexivity].
  unfold hstore, quotes_in. induction items as [|kv items IH]; [reflexivity|].
  assert (Hitem : count_char "034" (hstore_item kv)
                  = 4 + (count_char "034" (fst kv) + count_char "034" (snd kv))).
  { unfold hstore_item, dquote. rewrite !count_char_append. simpl. lia. }
  destruct items as [|kv2 items].
  - simpl map. cbn [PyStr.join String.concat length]. rewrite Hitem.
    unfold list_sum. cbn [fold_right]. lia.
  - change (map hstore_item (kv :: kv2 :: items))
      with (hstore_item kv :: map hstore_item (kv2 :: items)).
    change (map hstore_item (kv2 :: items))
      with (hstore_item kv2 :: map hstore_item items) in *.
    rewrite join_cons, !count_char_append, IH, Hitem.
    unfold list_sum. cbn [map fold_right length count_char]. simpl Ascii.eqb.
    cbv iota. lia.
Qed.

Example hstore_example :
  hstore [("a", "1"); ("b", "x y")]
  = dquote +:+ "a" +:+ dquote +:+ "=>" +:+ dquote +:+ "1" +:+ dquote +:+ ","
    +:+ dquote +:+ "b" +:+ dquote +:+ "=>" +:+ dquote +:+ "x y" +:+ dquote.
Proof. reflexivity. Qed.

(** ** Operational failures on the public surface *)



